(** * go-bus: an in-memory publish/subscribe bus (bus.go)

    A shallow embedding of [bus.go].  Go slices are modelled as headers
    (pointer, length, capacity) over backing arrays that live in a store, so
    that two slice values that share an array really alias; interface values
    of type [Handler] are compared the way Go's [==] compares them; handler
    bodies are trees of calls on buses, run with a bound on the call depth. *)

From stdpp Require Import base option list gmap strings.
From Stdlib Require Import ZArith.

Set Default Proof Using "Type".

(** ** Values of type [interface{}] used as topics and payloads *)

Inductive Any :=
| AString (s : string)
| AInt (z : Z).

#[global] Instance Any_eq_dec : EqDecision Any.
Proof. solve_decision. Defined.

#[global] Instance Any_countable : Countable Any.
Proof.
  refine (inj_countable'
    (λ a, match a with AString s => inl s | AInt z => inr z end)
    (λ x, match x with inl s => AString s | inr z => AInt z end) _).
  by intros [].
Defined.

(** ** Handlers and the code they run *)

Abbreviation loc := nat.

(** [type PublishFlag int] and [Async PublishFlag = 1 << 0]. *)
Definition PublishFlag := Z.
Definition Async : PublishFlag := Z.shiftl 1 0.

(** A handler body is a tree of calls on buses; every call hands its result
    to the rest of the body ([CallSubscribeFunc] hands over the address [p]
    of the registered [&hf]: the capability it returns is
    [Unsubscribe b t (HPtr p)]).  [Handler] is the interface type: the nil
    interface; a pointer, such as the [&hf] of [SubscribeFunc], which [==]
    compares by address and whose method runs the function held in the
    cell it points to; or a [HandlerFunc] value stored directly in the
    interface, as [HandlerFunc.On] has a value receiver. *)
Inductive Prog :=
| Ret
| CallSubscribe (b : loc) (t : Any) (h : Handler) (k : Prog)
| CallSubscribeFunc (b : loc) (t : Any) (f : loc → Any → Any → Prog)
    (k : loc → Prog)
| CallUnsubscribe (b : loc) (t : Any) (h : Handler) (k : bool → Prog)
| CallPublish (b : loc) (t v : Any) (flags : list PublishFlag) (k : nat → Prog)
| CallPublishAll (b : loc) (v : Any) (k : nat → Prog)
with Handler :=
| HNil
| HPtr (p : loc)
| HFunc (f : loc → Any → Any → Prog).

(** [type HandlerFunc func(b *Bus, t, v interface{})] *)
Definition HandlerFunc := loc → Any → Any → Prog.

(** [h2 == h] on interface values: pointers are compared by address, values
    of different dynamic types are unequal, and comparing two values of
    the same dynamic type [HandlerFunc], a func type, which Go does not
    compare, is a run-time panic ([None]). *)
Definition iface_eq (h2 h : Handler) : option bool :=
  match h2, h with
  | HNil, HNil => Some true
  | HPtr p, HPtr q => Some (bool_decide (p = q))
  | HFunc _, HFunc _ => None
  | _, _ => Some false
  end.

(** ** Slices, buses and the store *)

Record Slice := { ptr : loc; len : nat; cap : nat }.

(** The nil slice, which indexing a map yields for an absent key. *)
Definition nil_slice : Slice := {| ptr := 0; len := 0; cap := 0 |}.

(** [type Bus struct { lock sync.RWMutex; topics map[interface{}][]Handler }];
    the lock has no role in a sequential run. *)
Record Bus := { topics : gmap Any Slice }.

(** One invocation [h.On(b, t, v)]. *)
Record Call := { c_handler : Handler; c_bus : loc; c_topic : Any; c_value : Any }.

Record World := {
  buses : list Bus;                (* every Bus struct, by address *)
  defaultBus : option loc;         (* [var defaultBus *Bus], nil until [once] ran *)
  arrays : list (list Handler);    (* backing arrays of handler slices, by address *)
  cells : list HandlerFunc;        (* heap variables of type HandlerFunc *)
  spawned : list Call              (* goroutines started by [go h.On(b, t, v)] *)
}.

Definition set_buses (bs : list Bus) (w : World) : World :=
  {| buses := bs; defaultBus := defaultBus w; arrays := arrays w;
     cells := cells w; spawned := spawned w |}.
Definition set_defaultBus (d : option loc) (w : World) : World :=
  {| buses := buses w; defaultBus := d; arrays := arrays w;
     cells := cells w; spawned := spawned w |}.
Definition set_arrays (m : list (list Handler)) (w : World) : World :=
  {| buses := buses w; defaultBus := defaultBus w; arrays := m;
     cells := cells w; spawned := spawned w |}.
Definition set_cells (c : list HandlerFunc) (w : World) : World :=
  {| buses := buses w; defaultBus := defaultBus w; arrays := arrays w;
     cells := c; spawned := spawned w |}.
Definition set_spawned (g : list Call) (w : World) : World :=
  {| buses := buses w; defaultBus := defaultBus w; arrays := arrays w;
     cells := cells w; spawned := g |}.

(** The state before the package is first used. *)
Definition boot : World :=
  {| buses := []; defaultBus := None; arrays := []; cells := []; spawned := [] |}.

(** Outcome of a call: a result and the new state, a run-time panic, or
    the call-depth bound exhausted. *)
Inductive Res (A : Type) :=
| Ok (a : A) (w : World)
| Panic
| Timeout.
Arguments Ok {A} a w.
Arguments Panic {A}.
Arguments Timeout {A}.

Definition bind {A B} (r : Res A) (k : A → World → Res B) : Res B :=
  match r with
  | Ok a w => k a w
  | Panic => Panic
  | Timeout => Timeout
  end.

(** ** Slice primitives *)

(** The growth policy of [append] when the capacity does not suffice: Go
    only promises that the new array is large enough. *)
Class Growth := {
  growcap : nat → nat → nat;
  growcap_fits : ∀ oldcap needed, needed ≤ growcap oldcap needed
}.

(** Doubling, as the Go runtime does for small slices. *)
#[global] Program Instance doubling : Growth :=
  {| growcap oldcap needed := needed `max` (2 * oldcap) |}.
Next Obligation. intros; simpl; lia. Qed.

(** The elements [s[0], ..., s[len-1]] as the store holds them now. *)
Definition elems (m : list (list Handler)) (s : Slice) : list Handler :=
  take (len s) (default [] (m !! ptr s)).

(** [copy(arr[i:], xs)] for [xs] that fits. *)
Definition write_at (i : nat) (xs arr : list Handler) : list Handler :=
  take i arr ++ xs ++ drop (i + length xs) arr.

(** [s[:i]] *)
Definition slice_to (s : Slice) (i : nat) : Slice :=
  {| ptr := ptr s; len := i; cap := cap s |}.

Section with_growth.
Context `{!Growth}.

(** The builtin [append(s, xs...)]: in place when the capacity suffices,
    into a fresh, larger array otherwise (its spare cells hold nil). *)
Definition append (s : Slice) (xs : list Handler) (m : list (list Handler))
  : Slice * list (list Handler) :=
  let n := len s + length xs in
  if decide (n ≤ cap s) then
    ({| ptr := ptr s; len := n; cap := cap s |},
     alter (write_at (len s) xs) (ptr s) m)
  else
    let c := growcap (cap s) n in
    ({| ptr := length m; len := n; cap := c |},
     m ++ [elems m s ++ xs ++ replicate (c - n) HNil]).

(** ** The Bus methods *)

(** [NewBus()]: allocates a Bus with an empty map. *)
Definition NewBus (w : World) : loc * World :=
  (length (buses w), set_buses (buses w ++ [{| topics := ∅ |}]) w).

(** The scan of [Unsubscribe]: index of the first element equal to [h]. *)
Inductive Scan := Found (i : nat) | NotFound | Uncomparable.

Fixpoint scan (h : Handler) (a : list Handler) (i : nat) : Scan :=
  match a with
  | [] => NotFound
  | h2 :: a' =>
      match iface_eq h2 h with
      | None => Uncomparable
      | Some true => Found i
      | Some false => scan h a' (S i)
      end
  end.

(** [func (b *Bus) Unsubscribe(t interface{}, h Handler) bool] *)
Definition Unsubscribe (b : loc) (t : Any) (h : Handler) (w : World) : Res bool :=
  match buses w !! b with
  | None => Panic
  | Some bs =>
      let a := default nil_slice (topics bs !! t) in
      match scan h (elems (arrays w) a) 0 with
      | Uncomparable => Panic
      | NotFound => Ok false w
      | Found i =>
          let '(s, m) :=
            append (slice_to a i) (drop (S i) (elems (arrays w) a)) (arrays w) in
          let tp := <[t := s]> (topics bs) in
          let tp := if decide (len s = 0) then delete t tp else tp in
          Ok true (set_buses (<[b := {| topics := tp |}]> (buses w))
                     (set_arrays m w))
      end
  end.

(** [type UnsubscribeFunc func() bool] *)
Definition UnsubscribeFunc := World → Res bool.

(** [func (b *Bus) Subscribe(t interface{}, h Handler) UnsubscribeFunc] *)
Definition Subscribe (b : loc) (t : Any) (h : Handler) (w : World)
  : Res UnsubscribeFunc :=
  match buses w !! b with
  | None => Panic
  | Some bs =>
      let '(s, m) :=
        match topics bs !! t with
        | None => ({| ptr := length (arrays w); len := 1; cap := 1 |},
                   arrays w ++ [[h]])
        | Some hs => append hs [h] (arrays w)
        end in
      Ok (Unsubscribe b t h)
         (set_buses (<[b := {| topics := <[t := s]> (topics bs) |}]> (buses w))
            (set_arrays m w))
  end.

(** [func (b *Bus) SubscribeFunc(t, h func(...)) UnsubscribeFunc]: [hf]
    escapes to the heap and [&hf] is the handler. *)
Definition SubscribeFunc (b : loc) (t : Any) (h : HandlerFunc) (w : World)
  : Res UnsubscribeFunc :=
  let hf := length (cells w) in
  Subscribe b t (HPtr hf) (set_cells (cells w ++ [h]) w).

(** Client code [hf := HandlerFunc(f); h := &hf]: a pointer handler of the
    client's own, made the way [SubscribeFunc] makes its wrapper. *)
Definition new_handler (f : HandlerFunc) (w : World) : Handler * World :=
  (HPtr (length (cells w)), set_cells (cells w ++ [f]) w).

(** [h.On(b, t, v)]: [call] runs a function body.  A nil interface or a
    pointer to no cell is a nil dereference. *)
Definition On (call : Prog → World → Res unit)
    (h : Handler) (b : loc) (t v : Any) (w : World) : Res unit :=
  match h with
  | HNil => Panic
  | HPtr p =>
      match cells w !! p with
      | Some hf => call (hf b t v) w
      | None => Panic
      end
  | HFunc f => call (f b t v) w
  end.

(** The value of type [error]; nil is [None]. *)
Definition error := option string.

(** What [Publish] returns, [(int, error)], together with the handlers it
    invoked itself on the calling goroutine, in order (a ghost field). *)
Record Published := { count : nat; err : error; invoked : list Handler }.

(** [for _, h := range hs { h.On(b, t, v) }]: the header [hs] is fixed, the
    element [hs[i]] is read from the store when iteration [i] starts. *)
Fixpoint invoke_range (call : Prog → World → Res unit) (b : loc) (t v : Any)
    (hs : Slice) (i n : nat) (w : World) : Res (list Handler) :=
  match n with
  | 0 => Ok [] w
  | S n' =>
      match arrays w !! ptr hs ≫= (.!! i) with
      | None => Panic
      | Some h =>
          bind (On call h b t v w) (λ _ w1,
          bind (invoke_range call b t v hs (S i) n' w1) (λ l w2,
          Ok (h :: l) w2))
      end
  end.

Definition mkCall (b : loc) (t v : Any) (h : Handler) : Call :=
  {| c_handler := h; c_bus := b; c_topic := t; c_value := v |}.

(** [for _, flag := range flags { f = f | flag }] *)
Definition or_flags (flags : list PublishFlag) : PublishFlag :=
  foldl Z.lor 0%Z flags.

(** [for _, h := range hs { go h.On(b, t, v) }] over the elements [l] of
    [hs].  A go statement evaluates the method value [h.On] and the
    arguments on the calling goroutine before it starts the new one: for
    the nil interface that evaluation is a nil dereference, which panics
    in the caller, after the goroutines of the elements before it were
    started.  For any other handler the goroutine is started; what it
    does when it runs is not the caller's. *)
Fixpoint go_range (b : loc) (t v : Any) (l : list Handler) (w : World)
  : Res unit :=
  match l with
  | [] => Ok () w
  | h :: l' =>
      match h with
      | HNil => Panic
      | _ => go_range b t v l' (set_spawned (spawned w ++ [mkCall b t v h]) w)
      end
  end.

(** [func (b *Bus) Publish(t, v interface{}, flags ...PublishFlag) (int, error)] *)
Definition Publish_with (call : Prog → World → Res unit)
    (b : loc) (t v : Any) (flags : list PublishFlag) (w : World) : Res Published :=
  let f := or_flags flags in
  match buses w !! b with
  | None => Panic
  | Some bs =>
      let hs := default nil_slice (topics bs !! t) in
      if decide (Z.land f Async ≠ 0%Z) then
        bind (go_range b t v (elems (arrays w) hs) w) (λ _ w',
        Ok {| count := len hs; err := None; invoked := [] |} w')
      else
        bind (invoke_range call b t v hs 0 (len hs) w) (λ l w',
        Ok {| count := len hs; err := None; invoked := l |} w')
  end.

(** One round of the outer loop of [PublishAll]:
    [for _, h := range hs { go h.On(b, t, v) }; c += len(hs)]. *)
Definition publish_topic (b : loc) (v : Any) (r : Res nat) (x : Any * Slice)
  : Res nat :=
  bind r (λ c w1,
  bind (go_range b x.1 v (elems (arrays w1) x.2) w1) (λ _ w2,
  Ok (c + len x.2) w2)).

(** [func (b *Bus) PublishAll(v interface{}) (int, error)]; the topics are
    visited in the order of [map_to_list] (Go leaves the order open). *)
Definition PublishAll (b : loc) (v : Any) (w : World) : Res (nat * error) :=
  match buses w !! b with
  | None => Panic
  | Some bs =>
      bind (foldl (publish_topic b v) (Ok 0 w) (map_to_list (topics bs)))
           (λ c w', Ok (c, None) w')
  end.

(** Running a function body, given how a nested [Publish] behaves. *)
Fixpoint exec (publish : loc → Any → Any → list PublishFlag → World → Res Published)
    (p : Prog) (w : World) : Res unit :=
  match p with
  | Ret => Ok () w
  | CallSubscribe b t h k =>
      bind (Subscribe b t h w) (λ _ w', exec publish k w')
  | CallSubscribeFunc b t f k =>
      bind (SubscribeFunc b t f w) (λ _ w', exec publish (k (length (cells w))) w')
  | CallUnsubscribe b t h k =>
      bind (Unsubscribe b t h w) (λ r w', exec publish (k r) w')
  | CallPublish b t v flags k =>
      bind (publish b t v flags w) (λ r w', exec publish (k (count r)) w')
  | CallPublishAll b v k =>
      bind (PublishAll b v w) (λ r w', exec publish (k r.1) w')
  end.

(** Bodies run with at most [fuel] nested handler invocations. *)
Fixpoint run (fuel : nat) (p : Prog) (w : World) : Res unit :=
  match fuel with
  | 0 => Timeout
  | S n => exec (Publish_with (run n)) p w
  end.

Definition Publish (fuel : nat) := Publish_with (run fuel).

(** ** OnceFunc *)

(** [p; q]: the body [p] followed by the body [q]. *)
Fixpoint seq (p q : Prog) : Prog :=
  match p with
  | Ret => q
  | CallSubscribe b t h k => CallSubscribe b t h (seq k q)
  | CallSubscribeFunc b t f k => CallSubscribeFunc b t f (λ hf, seq (k hf) q)
  | CallUnsubscribe b t h k => CallUnsubscribe b t h (λ r, seq (k r) q)
  | CallPublish b t v flags k => CallPublish b t v flags (λ n, seq (k n) q)
  | CallPublishAll b v k => CallPublishAll b v (λ n, seq (k n) q)
  end.

(** Modelled from the spec: the code of [OnceFunc] is missing from the
    sources (only [TestOnce] calls it).  The spec has it register, through
    SubscribeFunc, a wrapper that captures its own unsubscribe capability
    and calls it after delegating to the wrapped function.  The capability
    of the registration is [Unsubscribe b t (HPtr hf)], where [hf] is the
    cell that SubscribeFunc is about to allocate. *)
Definition once_wrapper (b0 : loc) (t0 : Any) (hf : loc) (f : HandlerFunc)
  : HandlerFunc :=
  λ b t v, seq (f b t v) (CallUnsubscribe b0 t0 (HPtr hf) (λ _, Ret)).

Definition OnceFunc (b : loc) (t : Any) (f : HandlerFunc) (w : World)
  : Res UnsubscribeFunc :=
  SubscribeFunc b t (once_wrapper b t (length (cells w)) f) w.

End with_growth.

(** ** The package-level functions on the default bus *)

Module Pkg.
Section pkg.
Context `{!Growth}.

(** [getDefaultBus()]: [once.Do] creates the bus on first use. *)
Definition getDefaultBus (w : World) : loc * World :=
  match defaultBus w with
  | Some b => (b, w)
  | None => let '(b, w') := NewBus w in (b, set_defaultBus (Some b) w')
  end.

Definition Subscribe (t : Any) (h : Handler) (w : World) : Res UnsubscribeFunc :=
  let '(b, w') := getDefaultBus w in Subscribe b t h w'.

Definition SubscribeFunc (t : Any) (h : HandlerFunc) (w : World) : Res UnsubscribeFunc :=
  let '(b, w') := getDefaultBus w in SubscribeFunc b t h w'.

Definition Publish (fuel : nat) (t v : Any) (flags : list PublishFlag) (w : World)
  : Res Published :=
  let '(b, w') := getDefaultBus w in Publish fuel b t v flags w'.

(** [func Unsubscribe(t interface{}, h Handler)] has no result: the
    boolean of the method is dropped. *)
Definition Unsubscribe (t : Any) (h : Handler) (w : World) : Res unit :=
  let '(b, w') := getDefaultBus w in
  bind (Unsubscribe b t h w') (λ _ w'', Ok () w'').

(** Modelled from the spec: the package-level [OnceFunc] that [TestOnce]
    calls, on the default bus like its siblings. *)
Definition OnceFunc (t : Any) (f : HandlerFunc) (w : World) : Res UnsubscribeFunc :=
  let '(b, w') := getDefaultBus w in OnceFunc b t f w'.

End pkg.
End Pkg.

(** ** The logical view and the invariant of the store *)

(** The handler list of topic [t] on bus [b]: what [b.topics[t]] holds. *)
Definition slice_of (w : World) (b : loc) (t : Any) : option Slice :=
  buses w !! b ≫= λ bs, topics bs !! t.

Definition handlers (w : World) (b : loc) (t : Any) : list Handler :=
  match slice_of w b t with
  | Some s => elems (arrays w) s
  | None => []
  end.

(** Number of elements of [l] that [==] finds equal to [h]. *)
Definition same (h h2 : Handler) : bool :=
  match iface_eq h2 h with Some true => true | _ => false end.

Definition occ (h : Handler) (l : list Handler) : nat :=
  length (filter (λ h2, same h h2 = true) l).

(** Number of calls in [g] whose handler [==] finds equal to [h]. *)
Definition spawned_for (h : Handler) (g : list Call) : nat :=
  length (filter (λ c, same h (c_handler c) = true) g).

(** Handlers that [==] can compare with anything. *)
Definition comparable (h : Handler) : Prop :=
  match h with HFunc _ => False | _ => True end.

(** Every stored slice is non-empty, lies within its own array, and no
    two stored slices share an array. *)
Record wf (w : World) : Prop := {
  wf_slice : ∀ b t s, slice_of w b t = Some s →
    0 < len s ≤ cap s ∧ ∃ arr, arrays w !! ptr s = Some arr ∧ length arr = cap s;
  wf_sep : ∀ b1 t1 s1 b2 t2 s2,
    slice_of w b1 t1 = Some s1 → slice_of w b2 t2 = Some s2 →
    ptr s1 = ptr s2 → b1 = b2 ∧ t1 = t2;
  wf_default : ∀ b, defaultBus w = Some b → b < length (buses w)
}.

(** The state after [b.topics] became [tp] and the store [m]. *)
Definition upd (b : loc) (tp : gmap Any Slice) (m : list (list Handler))
    (w : World) : World :=
  set_buses (<[b := {| topics := tp |}]> (buses w)) (set_arrays m w).

(** Everything outside topic [t] of bus [b] is as before. *)
Definition frame (b : loc) (t : Any) (w w' : World) : Prop :=
  (∀ b2 t2, (b2, t2) ≠ (b, t) →
     slice_of w' b2 t2 = slice_of w b2 t2 ∧ handlers w' b2 t2 = handlers w b2 t2) ∧
  length (buses w') = length (buses w) ∧
  defaultBus w' = defaultBus w ∧
  cells w' = cells w ∧
  spawned w' = spawned w ∧
  length (arrays w) ≤ length (arrays w').

(** [f] keeps [P]; [f] relates the state before to the state after by [R]. *)
Definition preserves (P : World → Prop) {A} (f : World → Res A) : Prop :=
  ∀ w a w', P w → f w = Ok a w' → P w'.

Definition respects (R : World → World → Prop) {A} (f : World → Res A) : Prop :=
  ∀ w a w', f w = Ok a w' → R w w'.

(** The buses are never deallocated, the cells never change. *)
Definition grows (w w' : World) : Prop :=
  length (buses w) ≤ length (buses w') ∧ cells w `prefix_of` cells w'.

(** ** Reachable states *)

Section reach_defs.
Context `{!Growth}.

(** One operation of a client, or one spawned handler body running. *)
Inductive step : World → World → Prop :=
| step_NewBus w : step w (NewBus w).2
| step_new_handler f w : step w (new_handler f w).2
| step_getDefaultBus w : step w (Pkg.getDefaultBus w).2
| step_Subscribe b t h w u w' : Subscribe b t h w = Ok u w' → step w w'
| step_SubscribeFunc b t f w u w' : SubscribeFunc b t f w = Ok u w' → step w w'
| step_Unsubscribe b t h w r w' : Unsubscribe b t h w = Ok r w' → step w w'
| step_Publish fuel b t v flags w r w' :
    Publish fuel b t v flags w = Ok r w' → step w w'
| step_PublishAll b v w r w' : PublishAll b v w = Ok r w' → step w w'
| step_go fuel p w w' : run fuel p w = Ok () w' → step w w'.

Inductive reachable : World → Prop :=
| reach_boot : reachable boot
| reach_step w w' : reachable w → step w w' → reachable w'.

Definition steps : World → World → Prop := rtc step.

End reach_defs.

(** ** Concrete runs *)

Definition ok {A} (r : Res A) : World :=
  match r with Ok _ w => w | _ => boot end.

Definition value {A} (r : Res A) : option A :=
  match r with Ok a _ => Some a | _ => None end.

Definition T : Any := AString "test".
Definition V : Any := AString "hello".

(** A handler function that does nothing with the bus. *)
Definition idle : HandlerFunc := λ _ _ _, Ret.

(** A handler function that unsubscribes the handler [&hf] at cell 0 from
    the topic it is called on, as the README's handler does with [dereg()]. *)
Definition quit : HandlerFunc := λ b t _, CallUnsubscribe b t (HPtr 0) (λ _, Ret).

(** [b := NewBus()] *)
Definition w_bus : World := (NewBus boot).2.

(** [b.SubscribeFunc("test", quit); b.SubscribeFunc("test", idle);
     b.SubscribeFunc("test", idle)] *)
Definition w_one : World := ok (SubscribeFunc 0 T quit w_bus).
Definition w_two : World := ok (SubscribeFunc 0 T idle w_one).
Definition w_three : World := ok (SubscribeFunc 0 T idle w_two).

(** [b := NewBus(); b.Subscribe("test", HandlerFunc(idle))] *)
Definition w_func : World := ok (Subscribe 0 T (HFunc idle) w_bus).

(** [b := NewBus(); hf := HandlerFunc(idle); h := &hf] *)
Definition w_ptr : World := (new_handler idle w_bus).2.

(** [... ; b.Subscribe("test", h)] and then [b.Subscribe("other", h)] *)
Definition T2 : Any := AString "other".
Definition w_sub : World := ok (Subscribe 0 T (HPtr 0) w_ptr).
Definition w_sub2 : World := ok (Subscribe 0 T2 (HPtr 0) w_sub).

(** [b := NewBus(); b.OnceFunc("test", idle)] *)
Definition w_once : World := ok (OnceFunc 0 T idle w_bus).

(** A handler function that leaves a mark each time it runs: it registers
    one more handler on the topic [i]. *)
Definition tally (i : Z) : HandlerFunc :=
  λ b _ _, CallSubscribeFunc b (AInt i) idle (λ _, Ret).

(** [b := NewBus(); b.OnceFunc("test", tally1); b.OnceFunc("test", tally2);
     b.OnceFunc("test", tally3)] *)
Definition w_once3 : World :=
  ok (OnceFunc 0 T (tally 3)
        (ok (OnceFunc 0 T (tally 2) (ok (OnceFunc 0 T (tally 1) w_bus))))).

(** [hf := HandlerFunc(idle); Subscribe("test", &hf)] on the default bus. *)
Definition w_default : World :=
  ok (Pkg.Subscribe T (HPtr 0) (new_handler idle boot).2).

(** [b := NewBus(); var h Handler; b.Subscribe("test", h)]: the nil
    interface subscribed, which Subscribe does not check. *)
Definition w_nil : World := ok (Subscribe 0 T HNil w_bus).

(** ** Further notions *)

(** The function that [h.On] runs, if [h] has one: none for the nil
    interface or a pointer to no cell. *)
Definition handler_func (w : World) (h : Handler) : option HandlerFunc :=
  match h with
  | HNil => None
  | HPtr p => cells w !! p
  | HFunc f => Some f
  end.

(** Bodies that do nothing but subscribe handlers, on buses below [n]. *)
Fixpoint adds_only (n : nat) (p : Prog) : Prop :=
  match p with
  | Ret => True
  | CallSubscribe b _ _ k => b < n ∧ adds_only n k
  | CallSubscribeFunc b _ _ k => b < n ∧ ∀ hf, adds_only n (k hf)
  | _ => False
  end.

(** The slice header [hs], read when the store had [n] buses and the
    cells [c0], still reads the list [L]: its cells are untouched, every
    stored slice on its array is at least as long, and [L] is still the
    start of the handler list of topic [t] on bus [b]. *)
Record pinned (n : nat) (c0 : list HandlerFunc) (b : loc) (t : Any)
    (hs : Slice) (L : list Handler) (w : World) : Prop := {
  pin_wf : wf w;
  pin_buses : n ≤ length (buses w);
  pin_cells : c0 `prefix_of` cells w;
  pin_elems : ∃ arr, arrays w !! ptr hs = Some arr ∧ take (len hs) arr = L;
  pin_len : ∀ b2 t2 s2, slice_of w b2 t2 = Some s2 → ptr s2 = ptr hs →
              len hs ≤ len s2;
  pin_prefix : L `prefix_of` handlers w b t
}.

(** Bodies that only subscribe and unsubscribe, on buses below [n]: they
    subscribe functions (through SubscribeFunc) and HandlerFunc values
    whose bodies are of this kind again, and unsubscribe handlers that
    [==] can compare.  Such bodies change handler lists, the one that is
    being published to included. *)
Fixpoint tame (n : nat) (p : Prog) : Prop :=
  match p with
  | Ret => True
  | CallSubscribe b _ h k => b < n ∧ tame_handler n h ∧ tame n k
  | CallSubscribeFunc b _ f k =>
      b < n ∧ (∀ b' t v, b' < n → tame n (f b' t v)) ∧ ∀ hf, tame n (k hf)
  | CallUnsubscribe b _ h k => b < n ∧ comparable h ∧ ∀ r, tame n (k r)
  | CallPublish _ _ _ _ _ => False
  | CallPublishAll _ _ _ => False
  end
with tame_handler (n : nat) (h : Handler) : Prop :=
  match h with
  | HFunc f => ∀ b t v, b < n → tame n (f b t v)
  | _ => False
  end.

Definition tame_func (n : nat) (f : HandlerFunc) : Prop :=
  ∀ b t v, b < n → tame n (f b t v).

(** In [w] the handler has a function, and its body is of that kind. *)
Definition tame_at (n : nat) (w : World) (h : Handler) : Prop :=
  ∃ f, handler_func w h = Some f ∧ tame_func n f.

(** What holds while a synchronous Publish that read the header [hs] runs
    such bodies on a store of [n] buses: the cells of [hs] in its array
    hold handlers of that kind, and so does every handler list that lives
    on that array. *)
Record taming (n : nat) (hs : Slice) (w : World) : Prop := {
  tm_wf : wf w;
  tm_buses : length (buses w) = n;
  tm_range : ∃ arr, arrays w !! ptr hs = Some arr ∧ len hs ≤ length arr ∧
                    Forall (tame_at n w) (take (len hs) arr);
  tm_live : ∀ b t s, slice_of w b t = Some s → ptr s = ptr hs →
              Forall (tame_at n w) (handlers w b t)
}.

(** A default bus, once there, stays the default bus. *)
Definition keeps_default (w w' : World) : Prop :=
  ∀ d, defaultBus w = Some d → defaultBus w' = Some d.

(** A handler function that, each time it runs, subscribes one more idle
    handler to the topic it is called on. *)
Definition joiner : HandlerFunc :=
  λ b t _, CallSubscribeFunc b t idle (λ _, Ret).

(** [b := NewBus(); b.SubscribeFunc("test", joiner);
     b.SubscribeFunc("test", idle)] *)
Definition w_join : World :=
  ok (SubscribeFunc 0 T idle (ok (SubscribeFunc 0 T joiner w_bus))).

(** * Properties *)

Section store_lemmas.
Context `{!Growth}.

Lemma write_at_length i xs arr :
  i + length xs ≤ length arr → length (write_at i xs arr) = length arr.
Proof.
  intros Hle. unfold write_at.
  rewrite !length_app, length_take, length_drop. lia.
Qed.

Lemma write_at_take i xs arr :
  i + length xs ≤ length arr →
  take (i + length xs) (write_at i xs arr) = take i arr ++ xs.
Proof.
  intros Hle. unfold write_at. rewrite app_assoc.
  rewrite take_app_length'; [done|].
  rewrite length_app, length_take. lia.
Qed.

Lemma write_at_lookup j xs arr i h :
  j + length xs ≤ length arr →
  write_at j xs arr !! i = Some h → arr !! i = Some h ∨ h ∈ xs.
Proof.
  intros Hle. unfold write_at.
  intros [Hi|[Hge Hi]]%lookup_app_Some.
  - apply lookup_take_Some in Hi as [Hi _]. by left.
  - apply lookup_app_Some in Hi as [Hi|[Hge2 Hi]].
    + right. by eapply list_elem_of_lookup_2.
    + left. rewrite lookup_drop in Hi. rewrite <-Hi. f_equal.
      rewrite length_take in *. lia.
Qed.

(** What [append] does to a slice that lies within its array. *)
Lemma append_spec s xs m arr s' m' :
  append s xs m = (s', m') →
  m !! ptr s = Some arr → length arr = cap s → len s ≤ cap s →
  len s' = len s + length xs ∧
  len s' ≤ cap s' ∧
  (∃ arr', m' !! ptr s' = Some arr' ∧ length arr' = cap s') ∧
  elems m' s' = take (len s) arr ++ xs ∧
  length m ≤ length m' ∧
  (∀ p, p ≠ ptr s' → m' !! p = m !! p) ∧
  (ptr s' = ptr s ∨ ptr s' = length m).
Proof.
  intros Happ Harr Hlen Hle. unfold append in Happ.
  case_decide as Hfit; simplify_eq; simpl.
  - split_and!; try done.
    + exists (write_at (len s) xs arr). split.
      * by rewrite list_lookup_alter_eq, Harr.
      * rewrite write_at_length; lia.
    + unfold elems; simpl. rewrite list_lookup_alter_eq, Harr; simpl.
      by apply write_at_take; lia.
    + by rewrite length_alter.
    + intros p Hp. by rewrite list_lookup_alter_ne.
    + by left.
  - pose proof (growcap_fits (cap s) (len s + length xs)) as Hgrow.
    assert (Helems : elems m s = take (len s) arr).
    { unfold elems. by rewrite Harr. }
    split_and!; try done.
    + eexists. split.
      * by rewrite lookup_app_r, Nat.sub_diag.
      * rewrite Helems, !length_app, length_take, length_replicate. lia.
    + unfold elems; simpl. rewrite lookup_app_r, Nat.sub_diag by done; simpl.
      fold (elems m s). rewrite Helems.
      rewrite app_assoc. rewrite take_app_length'; [done|].
      rewrite length_app, length_take. lia.
    + rewrite length_app; simpl; lia.
    + intros p Hp. destruct (decide (p < length m)).
      * by rewrite lookup_app_l.
      * rewrite !lookup_ge_None_2; [done| lia |].
        rewrite length_app; simpl; lia.
    + by right.
Qed.

(** What [append] does to the arrays of the store: none is removed or
    resized, and a cell changes only in the array of the slice, to one of
    the appended elements. *)
Lemma append_arrays s xs m s' m' a arr :
  append s xs m = (s', m') →
  (∀ arr0, m !! ptr s = Some arr0 → length arr0 = cap s) →
  m !! a = Some arr →
  ∃ arr', m' !! a = Some arr' ∧ length arr' = length arr ∧
          ∀ i h, arr' !! i = Some h → arr !! i = Some h ∨ (a = ptr s ∧ h ∈ xs).
Proof.
  intros Happ Hcap Ha. unfold append in Happ.
  case_decide as Hfit; simplify_eq; simpl.
  - destruct (decide (a = ptr s)) as [->|Hne].
    + rewrite list_lookup_alter_eq, Ha. simpl. eexists. split; [done|].
      pose proof (Hcap _ Ha) as Hl.
      split; [apply write_at_length; lia|].
      intros i h Hi. apply write_at_lookup in Hi as [?|?]; [by left|by right|lia].
    + rewrite list_lookup_alter_ne by done. exists arr.
      split_and!; [done..|]. by left.
  - rewrite lookup_app_l by (by eapply lookup_lt_Some). exists arr.
    split_and!; [done..|]. by left.
Qed.

Lemma slice_of_upd w b bs tp m b' t' :
  buses w !! b = Some bs →
  slice_of (upd b tp m w) b' t' =
    if decide (b' = b) then tp !! t' else slice_of w b' t'.
Proof.
  intros Hb. unfold slice_of, upd; simpl.
  case_decide as Heq.
  - subst. rewrite list_lookup_insert_eq; [done|]. by eapply lookup_lt_Some.
  - by rewrite list_lookup_insert_ne.
Qed.

Lemma slice_of_Some w b t s :
  slice_of w b t = Some s ↔ ∃ bs, buses w !! b = Some bs ∧ topics bs !! t = Some s.
Proof.
  unfold slice_of. destruct (buses w !! b) as [bs|]; simpl.
  - split; [by eauto|]. by intros (bs' & [= <-] & Ht).
  - split; [done|]. by intros (bs' & [=] & _).
Qed.

(** Installing a well-formed slice whose array no other slice uses keeps
    the store well-formed. *)
Lemma wf_upd_insert w b bs t s m :
  wf w → buses w !! b = Some bs →
  0 < len s ≤ cap s →
  (∃ arr, m !! ptr s = Some arr ∧ length arr = cap s) →
  (∀ b2 t2 s2, slice_of w b2 t2 = Some s2 → (b2, t2) ≠ (b, t) →
     ptr s2 ≠ ptr s ∧ m !! ptr s2 = arrays w !! ptr s2) →
  wf (upd b (<[t := s]> (topics bs)) m w).
Proof.
  intros Hwf Hb Hlen Harr Hother.
  assert (Hold : ∀ b2 t2 s2,
    slice_of (upd b (<[t := s]> (topics bs)) m w) b2 t2 = Some s2 →
    ((b2, t2) = (b, t) ∧ s2 = s) ∨ ((b2, t2) ≠ (b, t) ∧ slice_of w b2 t2 = Some s2)).
  { intros b2 t2 s2. rewrite (slice_of_upd _ _ bs) by done.
    case_decide as Hb2; [subst b2|].
    - destruct (decide (t2 = t)) as [->|Ht].
      + rewrite lookup_insert_eq. intros [= ->]. by left.
      + rewrite lookup_insert_ne by done. intros Hs. right. split; [congruence|].
        apply slice_of_Some. eauto.
    - intros Hs. right. split; [congruence|done]. }
  split.
  - intros b2 t2 s2 Hs. destruct (Hold _ _ _ Hs) as [[_ ->]|[Hne Hs2]]; [done|].
    destruct (wf_slice _ Hwf _ _ _ Hs2) as [Hl (arr & Ha & Hc)].
    split; [done|]. exists arr. split; [|done].
    simpl. by destruct (Hother _ _ _ Hs2 Hne) as [_ ->].
  - intros b1 t1 s1 b2 t2 s2 Hs1 Hs2 Hp.
    destruct (Hold _ _ _ Hs1) as [[He1 ->]|[Hne1 Hs1']],
             (Hold _ _ _ Hs2) as [[He2 ->]|[Hne2 Hs2']].
    + by simplify_eq.
    + exfalso. by destruct (Hother _ _ _ Hs2' Hne2) as [Hp' _].
    + exfalso. by destruct (Hother _ _ _ Hs1' Hne1) as [Hp' _].
    + by eapply (wf_sep _ Hwf).
  - intros d Hd. simpl in *. rewrite length_insert. by apply (wf_default _ Hwf).
Qed.

(** Removing a topic keeps the store well-formed, whatever happened to
    the array it used. *)
Lemma wf_upd_delete w b bs t (s : Slice) m :
  wf w → buses w !! b = Some bs →
  (∀ b2 t2 s2, slice_of w b2 t2 = Some s2 → (b2, t2) ≠ (b, t) →
     m !! ptr s2 = arrays w !! ptr s2) →
  wf (upd b (delete t (<[t := s]> (topics bs))) m w).
Proof.
  intros Hwf Hb Hother.
  assert (Hold : ∀ b2 t2 s2,
    slice_of (upd b (delete t (<[t := s]> (topics bs))) m w) b2 t2 = Some s2 →
    (b2, t2) ≠ (b, t) ∧ slice_of w b2 t2 = Some s2).
  { intros b2 t2 s2. rewrite (slice_of_upd _ _ bs) by done.
    case_decide as Hb2; [subst b2|].
    - destruct (decide (t2 = t)) as [->|Hne].
      + by rewrite lookup_delete_eq.
      + rewrite lookup_delete_ne, lookup_insert_ne by done. intros Hs.
        split; [congruence|]. apply slice_of_Some. eauto.
    - intros Hs. split; [congruence|done]. }
  split.
  - intros b2 t2 s2 Hs. destruct (Hold _ _ _ Hs) as [Hne Hs2].
    destruct (wf_slice _ Hwf _ _ _ Hs2) as [Hl (arr & Ha & Hc)].
    split; [done|]. exists arr. split; [|done].
    simpl. by rewrite (Hother _ _ _ Hs2 Hne).
  - intros b1 t1 s1 b2 t2 s2 Hs1 Hs2 Hp.
    destruct (Hold _ _ _ Hs1) as [_ Hs1'], (Hold _ _ _ Hs2) as [_ Hs2'].
    by eapply (wf_sep _ Hwf).
  - intros d Hd. simpl in *. rewrite length_insert. by apply (wf_default _ Hwf).
Qed.

(** *** The scan *)

Lemma scan_shift h a i : 
  scan h a (S i) = match scan h a i with Found j => Found (S j) | r => r end.
Proof.
  revert i. induction a as [|h2 a IH]; intros i; simpl; [done|].
  destruct (iface_eq h2 h) as [[]|]; auto.
Qed.

Lemma scan_Found h a j :
  scan h a 0 = Found j →
  ∃ h2, a !! j = Some h2 ∧ iface_eq h2 h = Some true ∧
        Forall (λ h', iface_eq h' h = Some false) (take j a).
Proof.
  revert j. induction a as [|h1 a IH]; intros j; simpl; [done|].
  destruct (iface_eq h1 h) as [[]|] eqn:Heq; [| |done].
  - intros [= <-]. exists h1. simpl. by rewrite Forall_nil.
  - rewrite scan_shift. destruct (scan h a 0) as [j'| |] eqn:Hs; [|done..].
    intros [= <-]. destruct (IH j' eq_refl) as (h2 & Hl & He & Hall).
    exists h2. simpl. split_and!; [done..|]. by constructor.
Qed.

Lemma scan_NotFound h a :
  scan h a 0 = NotFound ↔ Forall (λ h', iface_eq h' h = Some false) a.
Proof.
  induction a as [|h1 a IH]; simpl.
  - split; [by constructor|done].
  - rewrite scan_shift, Forall_cons.
    destruct (iface_eq h1 h) as [[]|] eqn:Heq.
    + split; [done|]. by intros [[=] _].
    + destruct (scan h a 0); intuition congruence.
    + split; [done|]. by intros [[=] _].
Qed.

Lemma scan_comparable h a : comparable h → scan h a 0 ≠ Uncomparable.
Proof.
  intros Hc. induction a as [|h1 a IH]; simpl; [done|].
  rewrite scan_shift.
  destruct (iface_eq h1 h) as [[]|] eqn:Heq; [done| |].
  - by destruct (scan h a 0).
  - by destruct h1, h.
Qed.

Lemma handlers_elems w b bs t :
  buses w !! b = Some bs →
  handlers w b t = elems (arrays w) (default nil_slice (topics bs !! t)).
Proof.
  intros Hb. unfold handlers, slice_of. rewrite Hb; simpl.
  by destruct (topics bs !! t).
Qed.

Lemma handlers_length w b t s :
  wf w → slice_of w b t = Some s → length (handlers w b t) = len s.
Proof.
  intros Hwf Hs. unfold handlers. rewrite Hs.
  destruct (wf_slice _ Hwf _ _ _ Hs) as [Hl (arr & Ha & Hc)].
  unfold elems. rewrite Ha; simpl. rewrite length_take. lia.
Qed.

Lemma frame_upd w b bs t tp m :
  buses w !! b = Some bs →
  (∀ t2, t2 ≠ t → tp !! t2 = topics bs !! t2) →
  (∀ b2 t2 s2, slice_of w b2 t2 = Some s2 → (b2, t2) ≠ (b, t) →
     m !! ptr s2 = arrays w !! ptr s2) →
  length (arrays w) ≤ length m →
  frame b t w (upd b tp m w).
Proof.
  intros Hb Htp Hm Hlen.
  split_and!; simpl; try done; [|by rewrite length_insert].
  intros b2 t2 Hne.
  assert (Hsl : slice_of (upd b tp m w) b2 t2 = slice_of w b2 t2).
  { rewrite (slice_of_upd _ _ bs) by done. case_decide as Hb2; [subst b2|done].
    rewrite Htp by congruence. unfold slice_of. by rewrite Hb. }
  split; [done|]. unfold handlers. rewrite Hsl.
  destruct (slice_of w b2 t2) as [s2|] eqn:Hs2; [|done].
  unfold elems; simpl. by rewrite (Hm b2 t2).
Qed.

Lemma wf_present w b t :
  wf w → is_Some (slice_of w b t) ↔ handlers w b t ≠ [].
Proof.
  intros Hwf. split.
  - intros [s Hs] Hnil. pose proof (handlers_length _ _ _ _ Hwf Hs) as Hl.
    rewrite Hnil in Hl. destruct (wf_slice _ Hwf _ _ _ Hs) as [? _]. simpl in Hl. lia.
  - unfold handlers. destruct (slice_of w b t); [eauto|done].
Qed.

(** Arrays used by other slices are not the one [append] writes. *)
Lemma other_array w b t s0 (s : Slice) (m : list (list Handler)) :
  wf w → slice_of w b t = Some s0 →
  (ptr s = ptr s0 ∨ ptr s = length (arrays w)) →
  (∀ p, p ≠ ptr s → m !! p = arrays w !! p) →
  ∀ b2 t2 s2, slice_of w b2 t2 = Some s2 → (b2, t2) ≠ (b, t) →
    ptr s2 ≠ ptr s ∧ m !! ptr s2 = arrays w !! ptr s2.
Proof.
  intros Hwf Hs0 Hptr Hm b2 t2 s2 Hs2 Hne.
  assert (ptr s2 ≠ ptr s) as Hp; [|split; [done|by apply Hm]].
  destruct (wf_slice _ Hwf _ _ _ Hs2) as [_ (arr & Ha & _)].
  apply lookup_lt_Some in Ha.
  destruct Hptr as [-> | ->]; [|lia].
  intros Hp. destruct (wf_sep _ Hwf _ _ _ _ _ _ Hs2 Hs0 Hp). congruence.
Qed.

(** *** Unsubscribe *)

Lemma Unsubscribe_found w b bs t h i :
  wf w → buses w !! b = Some bs →
  scan h (handlers w b t) 0 = Found i →
  ∃ w', Unsubscribe b t h w = Ok true w' ∧ wf w' ∧
        handlers w' b t = delete i (handlers w b t) ∧
        frame b t w w'.
Proof.
  intros Hwf Hb Hscan. unfold Unsubscribe. rewrite Hb.
  rewrite <-(handlers_elems _ _ _ _ Hb), Hscan.
  destruct (scan_Found _ _ _ Hscan) as (h2 & Hi & _ & _).
  apply lookup_lt_Some in Hi.
  destruct (topics bs !! t) as [s0|] eqn:Ht; simpl; last first.
  { rewrite (handlers_elems _ _ _ _ Hb), Ht in Hi. simpl in Hi. lia. }
  assert (Hs0 : slice_of w b t = Some s0) by (apply slice_of_Some; eauto).
  destruct (wf_slice _ Hwf _ _ _ Hs0) as [Hl0 (arr & Ha & Hc)].
  pose proof (handlers_length _ _ _ _ Hwf Hs0) as Hlen.
  assert (Hh : handlers w b t = take (len s0) arr).
  { rewrite (handlers_elems _ _ _ _ Hb), Ht. unfold elems; simpl. by rewrite Ha. }
  destruct (append _ _ _) as [s m] eqn:Happ.
  eapply append_spec in Happ as (Hls & Hlc & Harr' & Hel & Hmono & Hfr & Hptr);
    [|exact Ha|done|simpl; lia].
  simpl in *. rewrite length_drop, Hlen in Hls.
  pose proof (other_array _ _ _ _ _ _ Hwf Hs0 Hptr Hfr) as Hother.
  assert (Hel' : elems m s = delete i (handlers w b t)).
  { rewrite Hel, delete_take_drop, Hh, take_take. rewrite Hlen in Hi.
    by replace (i `min` len s0) with i by lia. }
  case_decide as Hz.
  - fold (upd b (delete t (<[t:=s]> (topics bs))) m w).
    eexists. split; [done|]. split_and!.
    + eapply wf_upd_delete; [done..|].
      intros b2 t2 s2 Hs2 Hne. by eapply Hother.
    + rewrite <-Hel'. unfold handlers. rewrite (slice_of_upd _ _ bs) by done.
      rewrite decide_True, lookup_delete_eq by done.
      unfold elems. by rewrite Hz.
    + eapply frame_upd; [done| | |done].
      * intros t2 Hne. by rewrite lookup_delete_ne, lookup_insert_ne.
      * intros b2 t2 s2 Hs2 Hne. by eapply Hother.
  - fold (upd b (<[t:=s]> (topics bs)) m w).
    eexists. split; [done|]. split_and!.
    + eapply wf_upd_insert; [done..|lia|done|done].
    + rewrite <-Hel'. unfold handlers. rewrite (slice_of_upd _ _ bs) by done.
      by rewrite decide_True, lookup_insert_eq.
    + eapply frame_upd; [done| | |done].
      * intros t2 Hne. by rewrite lookup_insert_ne.
      * intros b2 t2 s2 Hs2 Hne. by eapply Hother.
Qed.

Lemma Unsubscribe_notfound w b bs t h :
  buses w !! b = Some bs →
  scan h (handlers w b t) 0 = NotFound →
  Unsubscribe b t h w = Ok false w.
Proof.
  intros Hb Hscan. unfold Unsubscribe. rewrite Hb.
  by rewrite <-(handlers_elems _ _ _ _ Hb), Hscan.
Qed.

Lemma Unsubscribe_uncomparable w b bs t h :
  buses w !! b = Some bs →
  scan h (handlers w b t) 0 = Uncomparable →
  Unsubscribe b t h w = Panic.
Proof.
  intros Hb Hscan. unfold Unsubscribe. rewrite Hb.
  by rewrite <-(handlers_elems _ _ _ _ Hb), Hscan.
Qed.

(** *** Subscribe *)

Lemma Subscribe_ok w b bs t h :
  wf w → buses w !! b = Some bs →
  ∃ w', Subscribe b t h w = Ok (Unsubscribe b t h) w' ∧ wf w' ∧
        handlers w' b t = handlers w b t ++ [h] ∧
        frame b t w w'.
Proof.
  intros Hwf Hb. unfold Subscribe. rewrite Hb.
  destruct (topics bs !! t) as [s0|] eqn:Ht.
  - assert (Hs0 : slice_of w b t = Some s0) by (apply slice_of_Some; eauto).
    destruct (wf_slice _ Hwf _ _ _ Hs0) as [Hl0 (arr & Ha & Hc)].
    assert (Hh : handlers w b t = take (len s0) arr).
    { rewrite (handlers_elems _ _ _ _ Hb), Ht. unfold elems; simpl. by rewrite Ha. }
    destruct (append _ _ _) as [s m] eqn:Happ.
    eapply append_spec in Happ as (Hls & Hlc & Harr' & Hel & Hmono & Hfr & Hptr);
      [|exact Ha|done|lia].
    simpl in Hls.
    pose proof (other_array _ _ _ _ _ _ Hwf Hs0 Hptr Hfr) as Hother.
    fold (upd b (<[t:=s]> (topics bs)) m w).
    eexists. split; [done|]. split_and!.
    + eapply wf_upd_insert; [done..|lia|done|done].
    + rewrite Hh, <-Hel. unfold handlers. rewrite (slice_of_upd _ _ bs) by done.
      by rewrite decide_True, lookup_insert_eq.
    + eapply frame_upd; [done| | |done].
      * intros t2 Hne. by rewrite lookup_insert_ne.
      * intros b2 t2 s2 Hs2 Hne. by eapply Hother.
  - set (s := {| ptr := length (arrays w); len := 1; cap := 1 |}).
    fold (upd b (<[t:=s]> (topics bs)) (arrays w ++ [[h]]) w).
    assert (Hother : ∀ b2 t2 s2, slice_of w b2 t2 = Some s2 → (b2, t2) ≠ (b, t) →
      ptr s2 ≠ ptr s ∧ (arrays w ++ [[h]]) !! ptr s2 = arrays w !! ptr s2).
    { intros b2 t2 s2 Hs2 _.
      destruct (wf_slice _ Hwf _ _ _ Hs2) as [_ (arr & Ha & _)].
      pose proof (lookup_lt_Some _ _ _ Ha) as Hlt.
      split; [simpl; lia|]. by rewrite lookup_app_l. }
    eexists. split; [done|]. split_and!.
    + eapply wf_upd_insert; [done..|simpl; lia| |done].
      exists [h]. simpl. by rewrite lookup_app_r, Nat.sub_diag.
    + rewrite (handlers_elems w _ _ _ Hb), Ht. unfold handlers.
      rewrite (slice_of_upd _ _ bs) by done.
      rewrite decide_True, lookup_insert_eq by done.
      unfold elems; simpl. by rewrite lookup_app_r, Nat.sub_diag.
    + eapply frame_upd; [done| | |].
      * intros t2 Hne. by rewrite lookup_insert_ne.
      * intros b2 t2 s2 Hs2 Hne. by eapply Hother.
      * rewrite length_app. lia.
Qed.

(** What Subscribe and Unsubscribe do to the arrays: a cell changes only
    in the array of the topic's own slice, to the handler subscribed, or to
    one of the topic's handlers; and a slice that the topic has afterwards
    on an old array is on the array the topic had. *)
Lemma Subscribe_store w b t h u w' :
  wf w → Subscribe b t h w = Ok u w' →
  (∀ a arr, arrays w !! a = Some arr →
     ∃ arr', arrays w' !! a = Some arr' ∧ length arr' = length arr ∧
       ∀ i h', arr' !! i = Some h' →
         arr !! i = Some h' ∨
         (h' = h ∧ ∃ s, slice_of w b t = Some s ∧ ptr s = a)) ∧
  (∀ s', slice_of w' b t = Some s' → ptr s' < length (arrays w) →
     ∃ s, slice_of w b t = Some s ∧ ptr s = ptr s').
Proof.
  intros Hwf Hs. unfold Subscribe in Hs.
  destruct (buses w !! b) as [bs|] eqn:Hb; [|done].
  destruct (topics bs !! t) as [s0|] eqn:Ht.
  - assert (Hs0 : slice_of w b t = Some s0) by (apply slice_of_Some; eauto).
    destruct (wf_slice _ Hwf _ _ _ Hs0) as [Hl0 (arr0 & Ha0 & Hc0)].
    destruct (append s0 [h] (arrays w)) as [s m] eqn:Happ.
    injection Hs as _ <-. split.
    + intros a arr Ha.
      destruct (append_arrays _ _ _ _ _ a arr Happ) as (arr' & Ha' & Hlen & Hel);
        [intros arr1 Ha1; congruence|done|].
      exists arr'. split_and!; [done..|].
      intros i h' Hi. destruct (Hel i h' Hi) as [?|[-> Hin]]; [by left|right].
      apply list_elem_of_singleton in Hin as ->. eauto.
    + intros s'. fold (upd b (<[t:=s]> (topics bs)) m w).
      rewrite (slice_of_upd _ _ bs) by done.
      rewrite decide_True, lookup_insert_eq by done. intros [= <-] Hlt.
      eapply append_spec in Happ as (_ & _ & _ & _ & _ & _ & Hptr);
        [|exact Ha0|done|lia].
      destruct Hptr as [Hp|Hp]; [eauto|lia].
  - injection Hs as _ <-. split.
    + intros a arr Ha. exists arr. simpl.
      rewrite lookup_app_l by (by eapply lookup_lt_Some).
      split_and!; [done..|]. by left.
    + intros s'.
      fold (upd b (<[t:={| ptr := length (arrays w); len := 1; cap := 1 |}]>
                     (topics bs)) (arrays w ++ [[h]]) w).
      rewrite (slice_of_upd _ _ bs) by done.
      rewrite decide_True, lookup_insert_eq by done. intros [= <-]. simpl. lia.
Qed.

Lemma Unsubscribe_store w b t h r w' :
  wf w → Unsubscribe b t h w = Ok r w' →
  (∀ a arr, arrays w !! a = Some arr →
     ∃ arr', arrays w' !! a = Some arr' ∧ length arr' = length arr ∧
       ∀ i h', arr' !! i = Some h' →
         arr !! i = Some h' ∨
         (h' ∈ handlers w b t ∧ ∃ s, slice_of w b t = Some s ∧ ptr s = a)) ∧
  (∀ s', slice_of w' b t = Some s' → ptr s' < length (arrays w) →
     ∃ s, slice_of w b t = Some s ∧ ptr s = ptr s').
Proof.
  intros Hwf Hu. unfold Unsubscribe in Hu.
  destruct (buses w !! b) as [bs|] eqn:Hb; [|done].
  rewrite <-(handlers_elems _ _ _ _ Hb) in Hu.
  destruct (scan h (handlers w b t) 0) as [i| |] eqn:Hscan; [| |done]; last first.
  { injection Hu as _ <-. split.
    - intros a arr Ha. exists arr. split_and!; [done..|]. by left.
    - intros s' Hs' _. eauto. }
  destruct (topics bs !! t) as [s0|] eqn:Ht; last first.
  { rewrite (handlers_elems _ _ _ _ Hb), Ht in Hscan. done. }
  simpl in Hu.
  assert (Hs0 : slice_of w b t = Some s0) by (apply slice_of_Some; eauto).
  destruct (wf_slice _ Hwf _ _ _ Hs0) as [Hl0 (arr0 & Ha0 & Hc0)].
  destruct (scan_Found _ _ _ Hscan) as (h2 & Hi & _).
  apply lookup_lt_Some in Hi. rewrite (handlers_length _ _ _ _ Hwf Hs0) in Hi.
  destruct (append _ _ _) as [s m] eqn:Happ.
  assert (Harr : ∀ a arr, arrays w !! a = Some arr →
     ∃ arr', m !! a = Some arr' ∧ length arr' = length arr ∧
       ∀ j h', arr' !! j = Some h' →
         arr !! j = Some h' ∨
         (h' ∈ handlers w b t ∧ ∃ s, slice_of w b t = Some s ∧ ptr s = a)).
  { intros a arr Ha.
    destruct (append_arrays _ _ _ _ _ a arr Happ) as (arr' & Ha' & Hlen & Hel);
      [intros arr1 Ha1; simpl in *; congruence|done|].
    exists arr'. split_and!; [done..|].
    intros j h' Hj. destruct (Hel j h' Hj) as [?|[-> Hin]]; [by left|right].
    split; [by eapply subseteq_drop|]. eauto. }
  eapply append_spec in Happ as (_ & _ & _ & _ & _ & _ & Hptr);
    [|exact Ha0|done|simpl; lia].
  simpl in Hptr.
  assert (Hprov : ∀ s', (<[t:=s]> (topics bs)) !! t = Some s' ∨
                        delete t (<[t:=s]> (topics bs)) !! t = Some s' →
            ptr s' < length (arrays w) →
            ∃ s1, slice_of w b t = Some s1 ∧ ptr s1 = ptr s').
  { intros s'. rewrite lookup_insert_eq, lookup_delete_eq.
    intros [[= <-]|[=]] Hlt. destruct Hptr as [Hp|Hp]; [eauto|lia]. }
  case_decide as Hz; injection Hu as _ <-.
  - split; [exact Harr|]. intros s'.
    fold (upd b (delete t (<[t:=s]> (topics bs))) m w).
    rewrite (slice_of_upd _ _ bs) by done. rewrite decide_True by done. eauto.
  - split; [exact Harr|]. intros s'.
    fold (upd b (<[t:=s]> (topics bs)) m w).
    rewrite (slice_of_upd _ _ bs) by done. rewrite decide_True by done. eauto.
Qed.

Lemma wf_set_cells c w : wf w → wf (set_cells c w).
Proof. intros [H1 H2 H3]. by split. Qed.

Lemma SubscribeFunc_ok w b bs t f :
  wf w → buses w !! b = Some bs →
  ∃ w', SubscribeFunc b t f w = Ok (Unsubscribe b t (HPtr (length (cells w)))) w' ∧
        wf w' ∧
        handlers w' b t = handlers w b t ++ [HPtr (length (cells w))] ∧
        (∀ b2 t2, (b2, t2) ≠ (b, t) →
           slice_of w' b2 t2 = slice_of w b2 t2 ∧
           handlers w' b2 t2 = handlers w b2 t2) ∧
        length (buses w') = length (buses w) ∧
        defaultBus w' = defaultBus w ∧
        cells w' = cells w ++ [f] ∧
        spawned w' = spawned w.
Proof.
  intros Hwf Hb. unfold SubscribeFunc.
  destruct (Subscribe_ok (set_cells (cells w ++ [f]) w) b bs t
              (HPtr (length (cells w)))) as (w' & Hs & Hwf' & Hh & Hfr);
    [by apply wf_set_cells|done|].
  destruct Hfr as (Hf1 & Hf2 & Hf3 & Hf4 & Hf5 & Hf6).
  exists w'. by split_and!.
Qed.

(** *** NewBus *)

Lemma NewBus_spec w :
  let b := (NewBus w).1 in let w' := (NewBus w).2 in
  b = length (buses w) ∧
  buses w' !! b = Some {| topics := ∅ |} ∧
  (∀ b2, b2 ≠ b → buses w' !! b2 = buses w !! b2) ∧
  arrays w' = arrays w ∧ cells w' = cells w ∧
  spawned w' = spawned w ∧ defaultBus w' = defaultBus w.
Proof.
  simpl. split_and!; try done.
  - by rewrite lookup_app_r, Nat.sub_diag.
  - intros b2 Hne. destruct (decide (b2 < length (buses w))).
    + by rewrite lookup_app_l.
    + rewrite !lookup_ge_None_2; [done|lia|]. rewrite length_app; simpl; lia.
Qed.

Lemma slice_of_NewBus w b t :
  slice_of (NewBus w).2 b t = slice_of w b t.
Proof.
  destruct (NewBus_spec w) as (Hb & Hnew & Hold & _).
  unfold slice_of. destruct (decide (b = (NewBus w).1)) as [->|Hne].
  - rewrite Hnew; simpl. rewrite lookup_empty.
    rewrite (lookup_ge_None_2 (buses w)); [done|]. simpl. lia.
  - by rewrite Hold.
Qed.

Lemma wf_NewBus w : wf w → wf (NewBus w).2.
Proof.
  intros Hwf. split.
  - intros b t s. rewrite slice_of_NewBus. apply (wf_slice _ Hwf).
  - intros b1 t1 s1 b2 t2 s2. rewrite !slice_of_NewBus. apply (wf_sep _ Hwf).
  - intros d Hd. simpl in *. rewrite length_app; simpl.
    pose proof (wf_default _ Hwf _ Hd). lia.
Qed.

Lemma wf_boot : wf boot.
Proof. split; [done..|]. intros d. by simpl. Qed.

(** *** Every operation keeps the store well-formed *)

Lemma Subscribe_wf b t h w u w' :
  wf w → Subscribe b t h w = Ok u w' → wf w'.
Proof.
  intros Hwf Hs. destruct (buses w !! b) as [bs|] eqn:Hb.
  - destruct (Subscribe_ok w b bs t h Hwf Hb) as (w1 & Hs1 & Hwf1 & _).
    congruence.
  - unfold Subscribe in Hs. by rewrite Hb in Hs.
Qed.

Lemma SubscribeFunc_wf b t f w u w' :
  wf w → SubscribeFunc b t f w = Ok u w' → wf w'.
Proof.
  intros Hwf Hs. eapply Subscribe_wf; [|exact Hs]. by apply wf_set_cells.
Qed.

Lemma Unsubscribe_wf b t h w r w' :
  wf w → Unsubscribe b t h w = Ok r w' → wf w'.
Proof.
  intros Hwf Hu. destruct (buses w !! b) as [bs|] eqn:Hb.
  - destruct (scan h (handlers w b t) 0) as [i| |] eqn:Hscan.
    + destruct (Unsubscribe_found w b bs t h i Hwf Hb Hscan) as (w1 & Hu1 & Hwf1 & _).
      congruence.
    + rewrite (Unsubscribe_notfound w b bs t h Hb Hscan) in Hu. congruence.
    + rewrite (Unsubscribe_uncomparable w b bs t h Hb Hscan) in Hu. done.
  - unfold Unsubscribe in Hu. by rewrite Hb in Hu.
Qed.

Lemma wf_set_spawned g w : wf w → wf (set_spawned g w).
Proof. intros [H1 H2 H3]. by split. Qed.

Lemma bind_Ok {A B} (r : Res A) (k : A → World → Res B) b w' :
  bind r k = Ok b w' ↔ ∃ a w1, r = Ok a w1 ∧ k a w1 = Ok b w'.
Proof.
  destruct r as [a w| |]; simpl.
  - split; [by eauto|]. by intros (a' & w1 & [= <- <-] & Hk).
  - split; [done|]. by intros (a' & w1 & [=] & _).
  - split; [done|]. by intros (a' & w1 & [=] & _).
Qed.

(** *** Starting goroutines *)

(** The loop of go statements either starts one goroutine per element, in
    order, and changes nothing else, or it panics: it panics exactly when
    one of the elements is the nil interface. *)
Lemma go_range_spawn b t v l w :
  ((HNil ∉ l) ∧
   go_range b t v l w =
     Ok () (set_spawned (spawned w ++ (mkCall b t v <$> l)) w)) ∨
  (HNil ∈ l ∧ go_range b t v l w = Panic).
Proof.
  revert w. induction l as [|h l IH]; intros w; simpl.
  - left. split; [apply not_elem_of_nil|]. rewrite app_nil_r. by destruct w.
  - destruct h as [|p|f]; [right; split; [by left|done]|..].
    all: match goal with |- context [go_range _ _ _ _ ?w1] =>
           destruct (IH w1) as [[Hno ->]|[Hin ->]] end;
           [left|right; split; [by right|done]].
    all: split; [by apply not_elem_of_cons|].
    all: unfold set_spawned; simpl; by rewrite <-app_assoc.
Qed.

Lemma go_range_Ok b t v l w w' :
  go_range b t v l w = Ok () w' →
  (HNil ∉ l) ∧ w' = set_spawned (spawned w ++ (mkCall b t v <$> l)) w.
Proof.
  destruct (go_range_spawn b t v l w) as [[Hno ->]|[_ ->]]; [|done].
  by intros [= <-].
Qed.

Lemma publish_topic_Panic b v l : foldl (publish_topic b v) Panic l = Panic.
Proof. by induction l. Qed.

(** The outer loop of PublishAll does the same over all topics. *)
Lemma PublishAll_fold b v (l : list (Any * Slice)) c0 w0 :
  ((∀ x, x ∈ l → HNil ∉ elems (arrays w0) x.2) ∧
   foldl (publish_topic b v) (Ok c0 w0) l =
     Ok (c0 + sum_list_with (λ x, len x.2) l)
        (set_spawned
           (spawned w0 ++
            mjoin ((λ x, mkCall b x.1 v <$> elems (arrays w0) x.2) <$> l)) w0)) ∨
  ((∃ x, x ∈ l ∧ HNil ∈ elems (arrays w0) x.2) ∧
   foldl (publish_topic b v) (Ok c0 w0) l = Panic).
Proof.
  revert c0 w0. induction l as [|x l IH]; intros c0 w0.
  - left. split; [by intros x ?%elem_of_nil|]. simpl.
    rewrite app_nil_r, Nat.add_0_r. by destruct w0.
  - rewrite fmap_cons. change (mjoin (?y :: ?ys)) with (y ++ mjoin ys).
    change (foldl (publish_topic b v) (Ok c0 w0) (x :: l)) with
      (foldl (publish_topic b v)
         (bind (go_range b x.1 v (elems (arrays w0) x.2) w0)
               (λ _ w2, Ok (c0 + len x.2) w2)) l).
    destruct (go_range_spawn b x.1 v (elems (arrays w0) x.2) w0)
      as [[Hno ->]|[Hin ->]]; simpl bind.
    + destruct (IH (c0 + len x.2)
                  (set_spawned
                     (spawned w0 ++ (mkCall b x.1 v <$> elems (arrays w0) x.2)) w0))
        as [[Hall ->]|[(y & Hy & Hnil) ->]]; [left|right].
      * split; [by intros y [->|Hy]%elem_of_cons; [|apply Hall]|].
        unfold set_spawned; simpl. by rewrite <-app_assoc, Nat.add_assoc.
      * split; [|done]. exists y. split; [by right|done].
    + right. split; [|apply publish_topic_Panic]. exists x. split; [by left|done].
Qed.

Lemma PublishAll_Ok b v w r w' :
  PublishAll b v w = Ok r w' →
  r.2 = None ∧ ∃ g, w' = set_spawned (spawned w ++ g) w.
Proof.
  unfold PublishAll. destruct (buses w !! b) as [bs|]; [|done].
  destruct (PublishAll_fold b v (map_to_list (topics bs)) 0 w)
    as [[_ ->]|[_ ->]]; [|done].
  simpl. intros [= <- <-]. eauto.
Qed.

Lemma PublishAll_wf b v w r w' :
  wf w → PublishAll b v w = Ok r w' → wf w'.
Proof.
  intros Hwf Hp. destruct (PublishAll_Ok _ _ _ _ _ Hp) as (_ & g & ->).
  by apply wf_set_spawned.
Qed.

Lemma On_preserves P call h b t v :
  (∀ p, preserves P (call p)) → preserves P (On call h b t v).
Proof.
  intros Hcall w a w' HP. unfold On.
  destruct h as [|p|f]; [done| |by apply Hcall].
  destruct (cells w !! p); [by apply Hcall|done].
Qed.

Lemma invoke_range_preserves P call b t v hs i n :
  (∀ p, preserves P (call p)) → preserves P (invoke_range call b t v hs i n).
Proof.
  intros Hcall. revert i. induction n as [|n IH]; intros i w l w' HP; simpl.
  - by intros [= _ <-].
  - destruct (arrays w !! ptr hs ≫= _) as [h|]; [|done].
    rewrite bind_Ok. intros ([] & w1 & Hon & Hrest).
    apply bind_Ok in Hrest as (l' & w2 & Hrest & [= _ <-]).
    eapply IH; [|exact Hrest]. by eapply On_preserves.
Qed.

Lemma Publish_with_wf call b t v flags :
  (∀ p, preserves wf (call p)) → preserves wf (Publish_with call b t v flags).
Proof.
  intros Hcall w r w' Hwf. unfold Publish_with.
  destruct (buses w !! b); [|done]. case_decide.
  - rewrite bind_Ok. intros ([] & w1 & Hgo & [= _ <-]).
    apply go_range_Ok in Hgo as [_ ->]. by apply wf_set_spawned.
  - rewrite bind_Ok. intros (l & w1 & Hinv & [= _ <-]).
    by eapply invoke_range_preserves.
Qed.

Lemma exec_wf publish p :
  (∀ b t v flags, preserves wf (publish b t v flags)) →
  preserves wf (exec publish p).
Proof.
  intros Hpub. induction p as [|b t h k IH|b t f _ k IH|b t h k IH|b t v fl k IH|b v k IH];
    intros w [] w' Hwf; simpl.
  - by intros [= <-].
  - rewrite bind_Ok. intros (u & w1 & Hs & Hk).
    eapply IH; [|exact Hk]. by eapply Subscribe_wf.
  - rewrite bind_Ok. intros (u & w1 & Hs & Hk).
    eapply IH; [|exact Hk]. by eapply SubscribeFunc_wf.
  - rewrite bind_Ok. intros (r & w1 & Hs & Hk).
    eapply IH; [|exact Hk]. by eapply Unsubscribe_wf.
  - rewrite bind_Ok. intros (r & w1 & Hs & Hk).
    eapply IH; [|exact Hk]. by eapply Hpub.
  - rewrite bind_Ok. intros (r & w1 & Hs & Hk).
    eapply IH; [|exact Hk]. by eapply PublishAll_wf.
Qed.

Lemma run_wf fuel p : preserves wf (run fuel p).
Proof.
  revert p. induction fuel as [|n IH]; intros p; [done|].
  simpl. apply exec_wf. intros b t v flags. by apply Publish_with_wf.
Qed.

Lemma Publish_wf fuel b t v flags : preserves wf (Publish fuel b t v flags).
Proof. apply Publish_with_wf. intros p. apply run_wf. Qed.

(** *** Counting registrations *)

Lemma occ_app h l1 l2 : occ h (l1 ++ l2) = occ h l1 + occ h l2.
Proof. unfold occ. by rewrite filter_app, length_app. Qed.

Lemma occ_cons h h2 l :
  occ h (h2 :: l) = (if same h h2 then 1 else 0) + occ h l.
Proof.
  unfold occ. destruct (same h h2) eqn:Hs.
  - by rewrite filter_cons_True.
  - rewrite filter_cons_False; [done|]. by rewrite Hs.
Qed.

Lemma occ_zero h l :
  Forall (λ h', iface_eq h' h = Some false) l → occ h l = 0.
Proof.
  induction 1 as [|h2 l Hh _ IH]; [done|].
  rewrite occ_cons, IH. unfold same. by rewrite Hh.
Qed.

Lemma occ_delete h l i h2 :
  l !! i = Some h2 → iface_eq h2 h = Some true →
  S (occ h (delete i l)) = occ h l.
Proof.
  intros Hi Heq. rewrite <-(take_drop_middle l i h2 Hi) at 2.
  rewrite delete_take_drop, !occ_app, occ_cons. unfold same. rewrite Heq. lia.
Qed.

Lemma occ_delete_other h l i h2 :
  l !! i = Some h2 → same h h2 = false → occ h (delete i l) = occ h l.
Proof.
  intros Hi Hne. rewrite <-(take_drop_middle l i h2 Hi) at 2.
  rewrite delete_take_drop, !occ_app, occ_cons. rewrite Hne. lia.
Qed.

Lemma occ_absent p l : HPtr p ∉ l → occ (HPtr p) l = 0.
Proof.
  induction l as [|h2 l IH]; [done|].
  rewrite not_elem_of_cons, occ_cons. intros [Hne Hl]. rewrite IH by done.
  destruct h2 as [|q|f]; simpl; [done| |done].
  unfold same; simpl. case_bool_decide; [congruence|done].
Qed.

Lemma same_ptr p h : same (HPtr p) h = true → h = HPtr p.
Proof.
  unfold same. destruct h as [|q|f]; simpl; [done| |done].
  case_bool_decide; [congruence|done].
Qed.

Lemma scan_occ h l :
  match scan h l 0 with
  | Found i => 0 < occ h l ∧ S (occ h (delete i l)) = occ h l
  | NotFound => occ h l = 0
  | Uncomparable => ¬ comparable h
  end.
Proof.
  destruct (scan h l 0) as [i| |] eqn:Hscan.
  - destruct (scan_Found _ _ _ Hscan) as (h2 & Hi & Heq & _).
    pose proof (occ_delete h l i h2 Hi Heq). lia.
  - apply occ_zero. by apply scan_NotFound.
  - intros Hc. by apply (scan_comparable h l Hc).
Qed.

(** *** Relations that every operation respects *)

Section respects.
Context (R : World → World → Prop) `{!Reflexive R} `{!Transitive R}.
Hypothesis R_Subscribe : ∀ b t h, respects R (Subscribe b t h).
Hypothesis R_Unsubscribe : ∀ b t h, respects R (Unsubscribe b t h).
Hypothesis R_cells : ∀ c w, R w (set_cells (cells w ++ c) w).
Hypothesis R_spawned : ∀ g w, R w (set_spawned g w).

Lemma SubscribeFunc_respects b t f : respects R (SubscribeFunc b t f).
Proof using All.
  intros w u w' Hs. etrans; [apply (R_cells [f])|]. by eapply R_Subscribe.
Qed.

Lemma PublishAll_respects b v : respects R (PublishAll b v).
Proof using All.
  intros w r w' Hp. destruct (PublishAll_Ok _ _ _ _ _ Hp) as (_ & g & ->).
  apply R_spawned.
Qed.

Lemma On_respects call h b t v :
  (∀ p, respects R (call p)) → respects R (On call h b t v).
Proof using Type.
  intros Hcall w a w'. unfold On.
  destruct h as [|p|f]; [done| |by apply Hcall].
  destruct (cells w !! p); [by apply Hcall|done].
Qed.

Lemma invoke_range_respects call b t v hs i n :
  (∀ p, respects R (call p)) → respects R (invoke_range call b t v hs i n).
Proof using All.
  intros Hcall. revert i. induction n as [|n IH]; intros i w l w'; simpl.
  - by intros [= _ <-].
  - destruct (arrays w !! ptr hs ≫= _) as [h|]; [|done].
    rewrite bind_Ok. intros ([] & w1 & Hon & Hrest).
    apply bind_Ok in Hrest as (l' & w2 & Hrest & [= _ <-]).
    etrans; [by eapply On_respects|by eapply IH].
Qed.

Lemma Publish_with_respects call b t v flags :
  (∀ p, respects R (call p)) → respects R (Publish_with call b t v flags).
Proof using All.
  intros Hcall w r w'. unfold Publish_with.
  destruct (buses w !! b); [|done]. case_decide.
  - rewrite bind_Ok. intros ([] & w1 & Hgo & [= _ <-]).
    apply go_range_Ok in Hgo as [_ ->]. apply R_spawned.
  - rewrite bind_Ok. intros (l & w1 & Hinv & [= _ <-]).
    by eapply invoke_range_respects.
Qed.

Lemma exec_respects publish p :
  (∀ b t v flags, respects R (publish b t v flags)) →
  respects R (exec publish p).
Proof using All.
  intros Hpub.
  induction p as [|b t h k IH|b t f _ k IH|b t h k IH|b t v fl k IH|b v k IH];
    intros w [] w'; simpl.
  - by intros [= <-].
  - rewrite bind_Ok. intros (u & w1 & Hs & Hk).
    etrans; [by eapply R_Subscribe|by eapply IH].
  - rewrite bind_Ok. intros (u & w1 & Hs & Hk).
    etrans; [by eapply SubscribeFunc_respects|by eapply IH].
  - rewrite bind_Ok. intros (r & w1 & Hs & Hk).
    etrans; [by eapply R_Unsubscribe|by eapply IH].
  - rewrite bind_Ok. intros (r & w1 & Hs & Hk).
    etrans; [by eapply Hpub|by eapply IH].
  - rewrite bind_Ok. intros (r & w1 & Hs & Hk).
    etrans; [by eapply PublishAll_respects|by eapply IH].
Qed.

Lemma run_respects fuel p : respects R (run fuel p).
Proof using All.
  revert p. induction fuel as [|n IH]; intros p; [done|].
  simpl. apply exec_respects. intros b t v flags. by apply Publish_with_respects.
Qed.

Lemma Publish_respects fuel b t v flags : respects R (Publish fuel b t v flags).
Proof using All. apply Publish_with_respects. intros p. apply run_respects. Qed.

End respects.

#[global] Instance grows_refl : Reflexive grows.
Proof. by intros w; split. Qed.

#[global] Instance grows_trans : Transitive grows.
Proof. intros w1 w2 w3 [??] [??]. split; by etrans. Qed.

Lemma Subscribe_grows b t h : respects grows (Subscribe b t h).
Proof.
  intros w u w'. unfold Subscribe. destruct (buses w !! b) as [bs|]; [|done].
  destruct (match topics bs !! t with Some _ => _ | None => _ end) as [s m].
  intros [= _ <-]. split; simpl; [by rewrite length_insert|done].
Qed.

Lemma Unsubscribe_grows b t h : respects grows (Unsubscribe b t h).
Proof.
  intros w r w'. unfold Unsubscribe. destruct (buses w !! b) as [bs|]; [|done].
  destruct (scan _ _ _); [|by intros [= _ <-]|done].
  destruct (append _ _ _) as [s m].
  intros [= _ <-]. split; simpl; [by rewrite length_insert|done].
Qed.

Lemma run_grows fuel p : respects grows (run fuel p).
Proof.
  apply run_respects; try apply _.
  - apply Subscribe_grows.
  - apply Unsubscribe_grows.
  - intros c w. split; simpl; [done|by apply prefix_app_r].
  - intros g w. by split.
Qed.

Lemma Publish_grows fuel b t v flags : respects grows (Publish fuel b t v flags).
Proof.
  apply Publish_respects; try apply _.
  - apply Subscribe_grows.
  - apply Unsubscribe_grows.
  - intros c w. split; simpl; [done|by apply prefix_app_r].
  - intros g w. by split.
Qed.

End store_lemmas.

Section reach.
Context `{!Growth}.

Lemma wf_getDefaultBus w : wf w → wf (Pkg.getDefaultBus w).2.
Proof.
  intros Hwf. unfold Pkg.getDefaultBus. destruct (defaultBus w) eqn:Hd; [done|].
  simpl. pose proof (wf_NewBus w Hwf) as [H1 H2 H3]. split; [done..|].
  intros d [= <-]. simpl. rewrite length_app; simpl; lia.
Qed.

Lemma step_wf w w' : wf w → step w w' → wf w'.
Proof.
  intros Hwf Hstep. destruct Hstep.
  - by apply wf_NewBus.
  - by apply wf_set_cells.
  - by apply wf_getDefaultBus.
  - by eapply Subscribe_wf.
  - by eapply SubscribeFunc_wf.
  - by eapply Unsubscribe_wf.
  - by eapply Publish_wf.
  - by eapply PublishAll_wf.
  - by eapply run_wf.
Qed.

Lemma reachable_wf w : reachable w → wf w.
Proof. induction 1; [apply wf_boot|by eapply step_wf]. Qed.

Lemma Unsubscribe_true_inv w b bs t h w' :
  wf w → buses w !! b = Some bs → Unsubscribe b t h w = Ok true w' →
  ∃ i, scan h (handlers w b t) 0 = Found i ∧ wf w' ∧
       handlers w' b t = delete i (handlers w b t) ∧ frame b t w w'.
Proof.
  intros Hwf Hb Hu. destruct (scan h (handlers w b t) 0) as [i| |] eqn:Hscan.
  - destruct (Unsubscribe_found w b bs t h i Hwf Hb Hscan) as (w1 & Hu1 & ? & ? & ?).
    assert (w1 = w') as -> by congruence. by exists i.
  - rewrite (Unsubscribe_notfound w b bs t h Hb Hscan) in Hu. congruence.
  - rewrite (Unsubscribe_uncomparable w b bs t h Hb Hscan) in Hu. done.
Qed.

Lemma Subscribe_inv w b t h u w' :
  wf w → Subscribe b t h w = Ok u w' →
  u = Unsubscribe b t h ∧ wf w' ∧
  handlers w' b t = handlers w b t ++ [h] ∧ frame b t w w'.
Proof.
  intros Hwf Hs. destruct (buses w !! b) as [bs|] eqn:Hb.
  - destruct (Subscribe_ok w b bs t h Hwf Hb) as (w1 & Hs1 & ? & ? & ?).
    rewrite Hs1 in Hs. injection Hs as <- <-. done.
  - unfold Subscribe in Hs. by rewrite Hb in Hs.
Qed.

Lemma Unsubscribe_false_inv w b t h w' :
  Unsubscribe b t h w = Ok false w' →
  w' = w ∧ scan h (handlers w b t) 0 = NotFound.
Proof.
  unfold Unsubscribe. destruct (buses w !! b) as [bs|] eqn:Hb; [|done].
  rewrite <-(handlers_elems _ _ _ _ Hb).
  destruct (scan h (handlers w b t) 0); [|by intros [= <-]|done].
  by destruct (append _ _ _).
Qed.

Lemma Unsubscribe_inv w b t h r w' :
  wf w → Unsubscribe b t h w = Ok r w' →
  (r = false ∧ w' = w ∧ scan h (handlers w b t) 0 = NotFound) ∨
  (r = true ∧ ∃ i, scan h (handlers w b t) 0 = Found i ∧ wf w' ∧
       handlers w' b t = delete i (handlers w b t) ∧ frame b t w w').
Proof.
  intros Hwf Hu. destruct r.
  - right. split; [done|].
    destruct (buses w !! b) as [bs|] eqn:Hb.
    + by eapply Unsubscribe_true_inv.
    + unfold Unsubscribe in Hu. by rewrite Hb in Hu.
  - left. split; [done|]. by apply Unsubscribe_false_inv.
Qed.

Lemma slice_of_topics w b bs t :
  buses w !! b = Some bs → slice_of w b t = topics bs !! t.
Proof. intros Hb. unfold slice_of. by rewrite Hb. Qed.

(** C5. On every bus of every state reachable from the initial one by
    NewBus, Subscribe, SubscribeFunc, Unsubscribe, Publish and PublishAll
    (and by handler bodies running), a topic is a key of [topics] exactly
    when its handler list is non-empty; NewBus returns a Bus with an empty
    map; and removing the last handler of a topic deletes its key. *)
Theorem topic_key_iff_handlers w :
  reachable w →
  (∀ b bs t, buses w !! b = Some bs →
     (is_Some (topics bs !! t) ↔ handlers w b t ≠ [])) ∧
  buses (NewBus w).2 !! (NewBus w).1 = Some {| topics := ∅ |} ∧
  (∀ b bs t h h0 w', buses w !! b = Some bs → handlers w b t = [h0] →
     Unsubscribe b t h w = Ok true w' →
     ∃ bs', buses w' !! b = Some bs' ∧ topics bs' !! t = None).
Proof.
  intros Hreach. pose proof (reachable_wf w Hreach) as Hwf. split_and!.
  - intros b bs t Hb. rewrite <-(slice_of_topics w b bs t Hb). by apply wf_present.
  - by destruct (NewBus_spec w) as (_ & Hnew & _).
  - intros b bs t h h0 w' Hb Hone Hu.
    destruct (Unsubscribe_true_inv w b bs t h w' Hwf Hb Hu)
      as (i & Hscan & Hwf' & Hh & Hfr).
    destruct (scan_Found _ _ _ Hscan) as (h2 & Hi & _).
    rewrite Hone in Hi, Hh. destruct i as [|i]; [|done]. simpl in Hh.
    destruct Hfr as (_ & Hlen & _).
    destruct (lookup_lt_is_Some_2 (buses w') b) as [bs' Hb'].
    { rewrite Hlen. by eapply lookup_lt_Some. }
    exists bs'. split; [done|].
    rewrite <-(slice_of_topics w' b bs' t Hb').
    destruct (slice_of w' b t) as [s|] eqn:Hs; [|done].
    exfalso. by apply (proj1 (wf_present w' b t Hwf')); [rewrite Hs; eauto|].
Qed.

Lemma step_grows w w' : step w w' → grows w w'.
Proof.
  intros Hstep. destruct Hstep.
  - split; simpl; [rewrite length_app; lia|done].
  - split; simpl; [done|by apply prefix_app_r].
  - unfold Pkg.getDefaultBus. destruct (defaultBus w); [done|].
    split; simpl; [rewrite length_app; lia|done].
  - by eapply Subscribe_grows.
  - etrans; [|by eapply Subscribe_grows].
    split; simpl; [done|by apply prefix_app_r].
  - by eapply Unsubscribe_grows.
  - by eapply Publish_grows.
  - match goal with Hp : PublishAll _ _ _ = _ |- _ =>
      by destruct (PublishAll_Ok _ _ _ _ _ Hp) as (_ & g & ->) end.
  - by eapply run_grows.
Qed.

Lemma steps_grows w w' : steps w w' → grows w w'.
Proof. induction 1; [done|]. etrans; [by apply step_grows|done]. Qed.

Lemma steps_wf w w' : wf w → steps w w' → wf w'.
Proof. intros Hwf Hs. induction Hs; [done|]. eauto using step_wf. Qed.

(** C4 (amended). The capability returned by Subscribe(t, h), for a
    handler [h] that [==] can compare, is the call Unsubscribe(t, h) on
    the same bus with the same handler.  In every later state it returns
    false when no registration of [h] on [t] is present, and otherwise
    returns true and removes exactly one registration; so once it has
    removed the only registration, the next invocation returns false. *)
Theorem capability_calls w b t h u w1 :
  reachable w → comparable h → Subscribe b t h w = Ok u w1 →
  u = Unsubscribe b t h ∧
  ∀ w2, steps w1 w2 →
    (occ h (handlers w2 b t) = 0 → u w2 = Ok false w2) ∧
    (0 < occ h (handlers w2 b t) →
       ∃ w3, u w2 = Ok true w3 ∧
             S (occ h (handlers w3 b t)) = occ h (handlers w2 b t)) ∧
    (∀ w3, occ h (handlers w2 b t) = 1 → u w2 = Ok true w3 →
       u w3 = Ok false w3).
Proof.
  intros Hreach Hc Hs. pose proof (reachable_wf w Hreach) as Hwf.
  destruct (Subscribe_inv w b t h u w1 Hwf Hs) as (-> & Hwf1 & _ & Hfr).
  split; [done|]. intros w2 Hsteps.
  pose proof (steps_wf _ _ Hwf1 Hsteps) as Hwf2.
  assert (Hb : is_Some (buses w2 !! b)).
  { apply lookup_lt_is_Some_2. destruct (steps_grows _ _ Hsteps) as [Hlen _].
    destruct Hfr as (_ & Hl & _). unfold Subscribe in Hs.
    destruct (buses w !! b) eqn:Hbw; [|done]. apply lookup_lt_Some in Hbw. lia. }
  destruct Hb as [bs2 Hb].
  pose proof (scan_occ h (handlers w2 b t)) as Hocc.
  destruct (scan h (handlers w2 b t) 0) as [i| |] eqn:Hscan; [| |done].
  - destruct Hocc as [Hpos Hdel].
    destruct (Unsubscribe_found w2 b bs2 t h i Hwf2 Hb Hscan)
      as (w3 & Hu & Hwf3 & Hh & Hfr3).
    split_and!.
    + lia.
    + intros _. exists w3. split; [done|]. by rewrite Hh.
    + intros w3' Hone Hu'. assert (w3' = w3) as -> by congruence.
      destruct (lookup_lt_is_Some_2 (buses w3) b) as [bs3 Hb3].
      { destruct Hfr3 as (_ & -> & _). by eapply lookup_lt_Some. }
      eapply Unsubscribe_notfound; [done|].
      pose proof (scan_occ h (handlers w3 b t)) as Hocc3.
      rewrite Hh in Hocc3 |- *.
      destruct (scan h (delete i (handlers w2 b t)) 0); [lia|done|done].
  - split_and!.
    + intros _. by eapply Unsubscribe_notfound.
    + lia.
    + lia.
Qed.

Lemma snapshot_length w b bs t :
  wf w → buses w !! b = Some bs →
  len (default nil_slice (topics bs !! t)) = length (handlers w b t).
Proof.
  intros Hwf Hb. destruct (topics bs !! t) as [s|] eqn:Ht; simpl.
  - symmetry. apply handlers_length; [done|]. apply slice_of_Some. eauto.
  - unfold handlers. by rewrite (slice_of_topics w b bs t Hb), Ht.
Qed.

Lemma Publish_returns w b bs t v flags fuel :
  wf w → buses w !! b = Some bs →
  (∀ r w', Publish fuel b t v flags w = Ok r w' →
     count r = length (handlers w b t) ∧ err r = None) ∧
  (Z.land (or_flags flags) Async ≠ 0%Z → HNil ∉ handlers w b t →
     Publish fuel b t v flags w =
       Ok {| count := length (handlers w b t); err := None; invoked := [] |}
          (set_spawned (spawned w ++ (mkCall b t v <$> handlers w b t)) w)) ∧
  (Z.land (or_flags flags) Async ≠ 0%Z → HNil ∈ handlers w b t →
     Publish fuel b t v flags w = Panic) ∧
  (handlers w b t = [] →
     ∃ w', Publish fuel b t v flags w =
       Ok {| count := 0; err := None; invoked := [] |} w').
Proof.
  intros Hwf Hb. pose proof (snapshot_length w b bs t Hwf Hb) as Hlen.
  unfold Publish, Publish_with. rewrite Hb, <-(handlers_elems w b bs t Hb), Hlen.
  pose proof (go_range_spawn b t v (handlers w b t) w) as Hgo.
  split_and!.
  - intros r w'. case_decide.
    + rewrite bind_Ok. by intros ([] & w1 & _ & [= <- _]).
    + rewrite bind_Ok. by intros (l & w1 & _ & [= <- _]).
  - intros Hasync Hno. rewrite decide_True by done.
    by destruct Hgo as [[_ ->]|[Hin _]].
  - intros Hasync Hin. rewrite decide_True by done.
    by destruct Hgo as [[Hno _]|[_ ->]].
  - intros Hnil. rewrite Hnil. case_decide; simpl; eauto.
Qed.

(** PublishAll returns, with a nil error, when no handler registered on
    the bus is the nil interface, and panics when one is. *)
Lemma PublishAll_returns w b bs v :
  buses w !! b = Some bs →
  ((∀ t, HNil ∉ handlers w b t) ∧
   PublishAll b v w =
     Ok (sum_list_with (λ x, len x.2) (map_to_list (topics bs)), None)
        (set_spawned
           (spawned w ++
            mjoin ((λ x, mkCall b x.1 v <$> elems (arrays w) x.2)
                     <$> map_to_list (topics bs))) w)) ∨
  ((∃ t, HNil ∈ handlers w b t) ∧ PublishAll b v w = Panic).
Proof.
  intros Hb. unfold PublishAll. rewrite Hb.
  assert (Hh : ∀ x, x ∈ map_to_list (topics bs) →
            elems (arrays w) x.2 = handlers w b x.1).
  { intros [t hs] Hx%elem_of_map_to_list. simpl.
    unfold handlers. by rewrite (slice_of_topics w b bs t Hb), Hx. }
  destruct (PublishAll_fold b v (map_to_list (topics bs)) 0 w)
    as [[Hall ->]|[(x & Hx & Hnil) ->]]; [left|right]; simpl.
  - split; [|done]. intros t. unfold handlers.
    rewrite (slice_of_topics w b bs t Hb).
    destruct (topics bs !! t) as [hs|] eqn:Ht; [|apply not_elem_of_nil].
    apply (Hall (t, hs)). by apply elem_of_map_to_list.
  - split; [|done]. exists x.1. by rewrite <-Hh.
Qed.

(** *** What a synchronous Publish invokes *)

(** The removal is done in place: afterwards the old slice header reads
    the list without element [i], followed by a stale copy of the last
    element. *)
Lemma Unsubscribe_shifts_array w b bs t h i hs :
  wf w → buses w !! b = Some bs → topics bs !! t = Some hs →
  scan h (handlers w b t) 0 = Found i →
  ∃ w', Unsubscribe b t h w = Ok true w' ∧
        elems (arrays w') hs =
          delete i (handlers w b t) ++ drop (len hs - 1) (handlers w b t).
Proof.
  intros Hwf Hb Ht Hscan.
  assert (Hs : slice_of w b t = Some hs) by (apply slice_of_Some; eauto).
  destruct (wf_slice _ Hwf _ _ _ Hs) as [Hl (arr & Ha & Hc)].
  pose proof (handlers_length _ _ _ _ Hwf Hs) as Hlen.
  assert (Hh : handlers w b t = take (len hs) arr).
  { rewrite (handlers_elems _ _ _ _ Hb), Ht. unfold elems; simpl. by rewrite Ha. }
  destruct (scan_Found _ _ _ Hscan) as (h2 & Hi & _).
  apply lookup_lt_Some in Hi. rewrite Hlen in Hi.
  unfold Unsubscribe. rewrite Hb, <-(handlers_elems _ _ _ _ Hb), Hscan, Ht. simpl.
  unfold append. simpl. rewrite length_drop, Hlen.
  rewrite decide_True by lia.
  match goal with |- context [Ok true ?w0] => exists w0 end.
  split; [by case_decide|].
  unfold elems. simpl. rewrite list_lookup_alter_eq, Ha. simpl.
  unfold write_at. rewrite length_drop, Hlen.
  replace (i + (len hs - S i)) with (len hs - 1) by lia.
  rewrite delete_take_drop, Hh, take_take.
  replace (i `min` len hs) with i by lia.
  rewrite !app_assoc.
  rewrite take_app_ge; last first.
  { rewrite length_app, length_take, length_drop, length_take. lia. }
  f_equal. rewrite length_app, length_take, length_drop, length_take.
  replace (len hs - (i `min` length arr + (len hs `min` length arr - S i))) with 1 by lia.
  rewrite take_drop_commute. f_equal. f_equal. lia.
Qed.

(** If every invocation keeps an invariant under which the cells of the
    slice read at the start still hold the handlers read at the start,
    a synchronous Publish invokes exactly those, once each, in order. *)
Lemma invoke_range_pinned call b t v hs (Inv : World → Prop) L :
  (∀ w1, Inv w1 → elems (arrays w1) hs = L) →
  (∀ h w1, h ∈ L → Inv w1 → ∃ w2, On call h b t v w1 = Ok () w2 ∧ Inv w2) →
  ∀ n i w1, i + n = length L → Inv w1 →
    ∃ w2, invoke_range call b t v hs i n w1 = Ok (drop i L) w2 ∧ Inv w2.
Proof.
  intros Hpin Hon. induction n as [|n IH]; intros i w1 Hin Hinv; simpl.
  - exists w1. split; [|done]. by rewrite drop_ge by lia.
  - destruct (lookup_lt_is_Some_2 L i) as [h Hh]; [lia|].
    assert (Hread : arrays w1 !! ptr hs ≫= (.!! i) = Some h).
    { pose proof (Hpin w1 Hinv) as He. rewrite <-He in Hh. unfold elems in Hh.
      apply lookup_take_Some in Hh as [Hh _].
      by destruct (arrays w1 !! ptr hs); simpl in *. }
    rewrite Hread.
    destruct (Hon h w1) as (w2 & Hcall & Hinv2); [by eapply list_elem_of_lookup_2|done|].
    rewrite Hcall. simpl.
    destruct (IH (S i) w2) as (w3 & Hrest & Hinv3); [lia|done|].
    rewrite Hrest. simpl. exists w3. split; [|done].
    by rewrite (drop_S L h i Hh).
Qed.

Lemma Publish_invokes_pinned call w b bs t v flags (Inv : World → Prop) :
  wf w → buses w !! b = Some bs →
  Z.land (or_flags flags) Async = 0%Z →
  Inv w →
  (∀ w1, Inv w1 →
     elems (arrays w1) (default nil_slice (topics bs !! t)) = handlers w b t) →
  (∀ h w1, h ∈ handlers w b t → Inv w1 →
     ∃ w2, On call h b t v w1 = Ok () w2 ∧ Inv w2) →
  ∃ w', Publish_with call b t v flags w =
          Ok {| count := length (handlers w b t); err := None;
                invoked := handlers w b t |} w' ∧ Inv w'.
Proof.
  intros Hwf Hb Hsync Hinv Hpin Hon.
  unfold Publish_with. rewrite Hb, decide_False by (by rewrite Hsync; intros []).
  rewrite (snapshot_length w b bs t Hwf Hb).
  destruct (invoke_range_pinned call b t v _ Inv _ Hpin Hon
              (length (handlers w b t)) 0 w) as (w' & Hrun & Hinv'); [done..|].
  rewrite Hrun. simpl. by exists w'.
Qed.

(** Whatever the growth policy of [append]: when the first handler of a
    list of two or more removes itself as it is invoked, and the others do
    nothing, a synchronous Publish invokes the first handler, then the
    handlers from the third on, then the last handler once more. *)
Lemma Publish_skips_after_removal call w b bs t v flags hs h0 rest :
  wf w → buses w !! b = Some bs → topics bs !! t = Some hs →
  Z.land (or_flags flags) Async = 0%Z →
  handlers w b t = h0 :: rest → rest ≠ [] →
  iface_eq h0 h0 = Some true →
  (∀ w', Unsubscribe b t h0 w = Ok true w' → On call h0 b t v w = Ok () w') →
  (∀ h w', h ∈ rest → Unsubscribe b t h0 w = Ok true w' →
     On call h b t v w' = Ok () w') →
  ∃ w', Unsubscribe b t h0 w = Ok true w' ∧
        handlers w' b t = rest ∧
        Publish_with call b t v flags w =
          Ok {| count := S (length rest); err := None;
                invoked := h0 :: drop 1 rest ++ drop (length rest - 1) rest |} w'.
Proof.
  intros Hwf Hb Ht Hsync Hh Hrest Hself Hquit Hidle.
  assert (Hscan : scan h0 (handlers w b t) 0 = Found 0).
  { rewrite Hh. simpl. by rewrite Hself. }
  destruct (Unsubscribe_shifts_array w b bs t h0 0 hs Hwf Hb Ht Hscan)
    as (w' & Hu & Hview).
  destruct (Unsubscribe_found w b bs t h0 0 Hwf Hb Hscan)
    as (w'' & Hu' & _ & Hh' & _).
  assert (w'' = w') as -> by congruence.
  pose proof (snapshot_length w b bs t Hwf Hb) as Hlen.
  rewrite Ht, Hh in Hlen. simpl in Hlen.
  rewrite Hh in Hview, Hh'. simpl in Hview, Hh'. rewrite Hlen in Hview.
  replace (S (length rest) - 1) with (S (length rest - 1)) in Hview
    by (destruct rest; [done|simpl; lia]).
  simpl in Hview.
  exists w'. split_and!; [done..|].
  unfold Publish_with.
  rewrite Hb, decide_False by (by rewrite Hsync; intros []).
  rewrite Ht. simpl. rewrite Hlen. simpl.
  pose proof (handlers_elems w b bs t Hb) as He. rewrite Ht, Hh in He.
  unfold elems in He. simpl in He.
  destruct (arrays w !! ptr hs) as [[|a0 arr]|]; simpl in He;
    try (by destruct (len hs)).
  rewrite Hlen in He. simpl in He. injection He as <- _. simpl.
  rewrite (Hquit w' Hu). simpl.
  destruct (invoke_range_pinned call b t v hs (λ x, x = w')
              (rest ++ drop (length rest - 1) rest)) with
    (n := length rest) (i := 1) (w1 := w') as (w2 & Hrun & ->).
  - by intros w1 ->.
  - intros h w1 Hin ->. exists w'. split; [|done]. apply Hidle; [|done].
    apply elem_of_app in Hin as [Hin|Hin]; [done|].
    by eapply subseteq_drop.
  - rewrite length_app, length_drop.
    destruct rest; [done|simpl; lia].
  - done.
  - rewrite Hrun. simpl. do 3 f_equal.
    destruct rest as [|h1 rest']; [done|]. done.
Qed.

(** *** Unsubscribe with a handler that [==] can compare *)

(** For such a handler Unsubscribe never panics on a valid bus: either no
    element equals it and the call returns false without touching the
    state, or the first equal element, at index [i], is removed, the
    others keep their order, the key goes when the list becomes empty, and
    the call returns true. *)
Lemma Unsubscribe_comparable w b bs t h :
  wf w → buses w !! b = Some bs → comparable h →
  (Forall (λ h2, iface_eq h2 h = Some false) (handlers w b t) ∧
   Unsubscribe b t h w = Ok false w) ∨
  (∃ i h2 w',
     handlers w b t !! i = Some h2 ∧ iface_eq h2 h = Some true ∧
     Forall (λ h', iface_eq h' h = Some false) (take i (handlers w b t)) ∧
     Unsubscribe b t h w = Ok true w' ∧
     handlers w' b t = delete i (handlers w b t) ∧
     (handlers w' b t = [] → slice_of w' b t = None) ∧
     frame b t w w').
Proof.
  intros Hwf Hb Hc.
  destruct (scan h (handlers w b t) 0) as [i| |] eqn:Hscan.
  - right. destruct (scan_Found _ _ _ Hscan) as (h2 & Hi & Heq & Hbefore).
    destruct (Unsubscribe_found w b bs t h i Hwf Hb Hscan)
      as (w' & Hu & Hwf' & Hh & Hfr).
    exists i, h2, w'. split_and!; try done.
    intros Hnil. destruct (slice_of w' b t) eqn:Hs; [|done].
    exfalso. by apply (proj1 (wf_present w' b t Hwf')); [rewrite Hs; eauto|].
  - left. split; [by apply scan_NotFound|by eapply Unsubscribe_notfound].
  - by destruct (scan_comparable h (handlers w b t) Hc).
Qed.

(** *** Handlers that subscribe and unsubscribe *)

Lemma On_handler_func call h b t v w :
  On call h b t v w =
    match handler_func w h with
    | Some f => call (f b t v) w
    | None => Panic
    end.
Proof. by destruct h. Qed.

Lemma tame_at_cells n w w' h :
  cells w `prefix_of` cells w' → tame_at n w h → tame_at n w' h.
Proof.
  intros Hpre (f & Hf & Ht). exists f. split; [|done].
  destruct h as [|p|g]; simpl in *; [done| |done].
  by eapply prefix_lookup_Some.
Qed.

Lemma taming_set_cells n hs f w :
  taming n hs w → taming n hs (set_cells (cells w ++ [f]) w).
Proof.
  intros [Hwf Hn (arr & Ha & Hlen & Hall) Hlive].
  assert (Hmono : ∀ x, tame_at n w x →
            tame_at n (set_cells (cells w ++ [f]) w) x).
  { intros x. apply tame_at_cells. simpl. by apply prefix_app_r. }
  split; [by apply wf_set_cells|done| |].
  - exists arr. split_and!; [done..|]. by eapply Forall_impl.
  - intros b t s Hs Hp. eapply Forall_impl; [by apply (Hlive b t s)|done].
Qed.

Lemma taming_Subscribe n hs w b t h u w' :
  taming n hs w → tame_at n w h → Subscribe b t h w = Ok u w' →
  taming n hs w'.
Proof.
  intros [Hwf Hn (arr & Ha & Hlen & Hall) Hlive] Hh Hs.
  destruct (Subscribe_inv w b t h u w' Hwf Hs) as (_ & Hwf' & Hh' & Hfr).
  destruct (Subscribe_store w b t h u w' Hwf Hs) as [Harr Hprov].
  destruct Hfr as (Hfr & Hbl & _ & Hcells & _).
  assert (Hmono : ∀ x, tame_at n w x → tame_at n w' x).
  { intros x. apply tame_at_cells. by rewrite Hcells. }
  split; [done|by rewrite Hbl| |].
  - destruct (Harr _ _ Ha) as (arr' & Ha' & Hl' & Hel).
    exists arr'. split_and!; [done|lia|].
    apply Forall_lookup. intros i x [Hi Hlt]%lookup_take_Some.
    apply Hmono. destruct (Hel i x Hi) as [Hold|[-> _]]; [|done].
    eapply (Forall_lookup_1 _ _ i x Hall). by apply lookup_take_Some.
  - intros b2 t2 s2 Hs2 Hp.
    destruct (decide ((b2, t2) = (b, t))) as [[= -> ->]|Hne].
    + rewrite Hh'. apply Forall_app. split; [|by constructor; [apply Hmono|]].
      destruct (Hprov s2 Hs2) as (s & Hs0 & Hps);
        [rewrite Hp; by eapply lookup_lt_Some|].
      eapply Forall_impl; [apply (Hlive b t s Hs0); congruence|done].
    + destruct (Hfr b2 t2 Hne) as [Hsl Hhd]. rewrite Hhd.
      eapply Forall_impl; [apply (Hlive b2 t2 s2); [by rewrite <-Hsl|done]|done].
Qed.

Lemma taming_Unsubscribe n hs w b t h r w' :
  taming n hs w → Unsubscribe b t h w = Ok r w' → taming n hs w'.
Proof.
  intros Htm Hu. pose proof Htm as [Hwf Hn (arr & Ha & Hlen & Hall) Hlive].
  destruct (Unsubscribe_store w b t h r w' Hwf Hu) as [Harr Hprov].
  destruct (Unsubscribe_inv w b t h r w' Hwf Hu)
    as [(_ & -> & _)|(_ & i & Hscan & Hwf' & Hh' & Hfr)]; [done|].
  destruct Hfr as (Hfr & Hbl & _ & Hcells & _).
  assert (Hmono : ∀ x, tame_at n w x → tame_at n w' x).
  { intros x. apply tame_at_cells. by rewrite Hcells. }
  split; [done|by rewrite Hbl| |].
  - destruct (Harr _ _ Ha) as (arr' & Ha' & Hl' & Hel).
    exists arr'. split_and!; [done|lia|].
    apply Forall_lookup. intros j x [Hj Hlt]%lookup_take_Some.
    apply Hmono. destruct (Hel j x Hj) as [Hold|[Hin (s & Hs0 & Hps)]].
    + eapply (Forall_lookup_1 _ _ j x Hall). by apply lookup_take_Some.
    + pose proof (Hlive b t s Hs0 Hps) as Hok.
      rewrite Forall_forall in Hok. by apply Hok.
  - intros b2 t2 s2 Hs2 Hp.
    destruct (decide ((b2, t2) = (b, t))) as [[= -> ->]|Hne].
    + rewrite Hh'.
      destruct (Hprov s2 Hs2) as (s & Hs0 & Hps);
        [rewrite Hp; by eapply lookup_lt_Some|].
      apply Forall_delete.
      eapply Forall_impl; [apply (Hlive b t s Hs0); congruence|done].
    + destruct (Hfr b2 t2 Hne) as [Hsl Hhd]. rewrite Hhd.
      eapply Forall_impl; [apply (Hlive b2 t2 s2); [by rewrite <-Hsl|done]|done].
Qed.

(** Such a body always returns, whatever the store holds on other
    topics, and leaves the iterated array with handlers of that kind. *)
Lemma exec_tame publish n hs p w :
  taming n hs w → tame n p →
  ∃ w', exec publish p w = Ok () w' ∧ taming n hs w'.
Proof.
  revert w.
  induction p as [|b t h k IH|b t f _ k IH|b t h k IH|b t v fl k IH|b v k IH];
    intros w Htm Hp; simpl in Hp |- *; try done.
  - by exists w.
  - destruct Hp as (Hb & Hh & Hk).
    destruct (lookup_lt_is_Some_2 (buses w) b) as [bs Hbs].
    { by rewrite (tm_buses _ _ _ Htm). }
    destruct (Subscribe_ok w b bs t h (tm_wf _ _ _ Htm) Hbs) as (w1 & Hs & _).
    rewrite Hs. simpl. apply IH; [|done].
    eapply taming_Subscribe; [done| |exact Hs].
    destruct h as [|q|g]; [done..|]. by exists g.
  - destruct Hp as (Hb & Hf & Hk).
    destruct (lookup_lt_is_Some_2 (buses w) b) as [bs Hbs].
    { by rewrite (tm_buses _ _ _ Htm). }
    destruct (SubscribeFunc_ok w b bs t f (tm_wf _ _ _ Htm) Hbs) as (w1 & Hs & _).
    rewrite Hs. simpl. apply IH; [|done].
    unfold SubscribeFunc in Hs.
    eapply taming_Subscribe; [by apply taming_set_cells| |exact Hs].
    exists f. split; [|done]. simpl. by rewrite lookup_app_r, Nat.sub_diag.
  - destruct Hp as (Hb & Hc & Hk).
    destruct (lookup_lt_is_Some_2 (buses w) b) as [bs Hbs].
    { by rewrite (tm_buses _ _ _ Htm). }
    destruct (Unsubscribe_comparable w b bs t h (tm_wf _ _ _ Htm) Hbs Hc)
      as [[_ Hu]|(i & h2 & w1 & _ & _ & _ & Hu & _)].
    + rewrite Hu. simpl. by apply IH.
    + rewrite Hu. simpl. apply IH; [|done]. by eapply taming_Unsubscribe.
Qed.

Lemma invoke_range_tame fuel n hs b t v k :
  b < n → ∀ i w, i + k ≤ len hs → taming n hs w →
  ∃ l w', invoke_range (run (S fuel)) b t v hs i k w = Ok l w' ∧
          length l = k ∧ taming n hs w'.
Proof.
  intros Hb. induction k as [|k IH]; intros i w Hik Htm.
  - by exists [], w.
  - destruct (tm_range _ _ _ Htm) as (arr & Ha & Hlen & Hall).
    destruct (lookup_lt_is_Some_2 arr i) as [h Hh]; [lia|].
    assert (Hth : tame_at n w h).
    { eapply (Forall_lookup_1 _ _ i h Hall). apply lookup_take_Some.
      split; [done|lia]. }
    destruct Hth as (f & Hf & Htf).
    destruct (exec_tame (Publish_with (run fuel)) n hs (f b t v) w Htm
                (Htf b t v Hb)) as (w1 & Hrun & Htm1).
    destruct (IH (S i) w1) as (l & w2 & Hrest & Hl & Htm2); [lia|done|].
    exists (h :: l), w2. split_and!; [|simpl; lia|done].
    change (invoke_range (run (S fuel)) b t v hs i (S k) w) with
      (match arrays w !! ptr hs ≫= (.!! i) with
       | None => Panic
       | Some h =>
           bind (On (run (S fuel)) h b t v w) (λ _ w1,
           bind (invoke_range (run (S fuel)) b t v hs (S i) k w1) (λ l w2,
           Ok (h :: l) w2))
       end).
    assert (arrays w !! ptr hs ≫= (.!! i) = Some h) as -> by (by rewrite Ha).
    rewrite On_handler_func, Hf.
    change (run (S fuel) (f b t v) w) with
      (exec (Publish_with (run fuel)) (f b t v) w).
    rewrite Hrun. cbn [bind]. by rewrite Hrest.
Qed.

(** A synchronous Publish to a topic whose handlers all have bodies of
    that kind returns, with any positive bound on the call depth, although
    the bodies may change the list it iterates over. *)
Lemma Publish_tame w b bs t v flags fuel :
  wf w → buses w !! b = Some bs →
  Z.land (or_flags flags) Async = 0%Z →
  (∀ h, h ∈ handlers w b t → tame_at (length (buses w)) w h) →
  ∃ l w', Publish (S fuel) b t v flags w =
            Ok {| count := length (handlers w b t); err := None;
                  invoked := l |} w' ∧
          length l = length (handlers w b t).
Proof.
  intros Hwf Hb Hsync Hall.
  pose proof (snapshot_length w b bs t Hwf Hb) as Hlen.
  unfold Publish, Publish_with.
  rewrite Hb, decide_False by (by rewrite Hsync; intros []).
  destruct (topics bs !! t) as [hs|] eqn:Ht; last first.
  { change (len (default nil_slice None)) with 0 in *. rewrite <-Hlen.
    by exists [], w. }
  change (default nil_slice (Some hs)) with hs in *.
  assert (Hs : slice_of w b t = Some hs) by (apply slice_of_Some; eauto).
  destruct (wf_slice _ Hwf _ _ _ Hs) as [Hl (arr & Ha & Hc)].
  assert (Hh : handlers w b t = take (len hs) arr).
  { unfold handlers. rewrite Hs. unfold elems. by rewrite Ha. }
  assert (Hok : Forall (tame_at (length (buses w)) w) (handlers w b t)).
  { by apply Forall_forall. }
  assert (Htm : taming (length (buses w)) hs w).
  { split; [done..| |].
    - exists arr. split_and!; [done|lia|by rewrite <-Hh].
    - intros b2 t2 s2 Hs2 Hp.
      by destruct (wf_sep _ Hwf _ _ _ _ _ _ Hs2 Hs Hp) as [-> ->]. }
  destruct (invoke_range_tame fuel (length (buses w)) hs b t v (len hs))
    with (i := 0) (w := w) as (l & w' & Hrun & Hll & _);
    [by eapply lookup_lt_Some|lia|done|].
  rewrite Hrun. cbn [bind]. exists l, w'. by rewrite <-Hlen, Hll.
Qed.


(** *** PublishAll *)

Lemma spawned_for_app h g1 g2 :
  spawned_for h (g1 ++ g2) = spawned_for h g1 + spawned_for h g2.
Proof. unfold spawned_for. by rewrite filter_app, length_app. Qed.

Lemma spawned_for_mkCall h b t v l :
  spawned_for h (mkCall b t v <$> l) = occ h l.
Proof.
  induction l as [|h2 l IH]; [done|].
  rewrite occ_cons, <-IH. unfold spawned_for; simpl.
  destruct (same h h2) eqn:Hs.
  - by rewrite filter_cons_True.
  - rewrite filter_cons_False; [done|]. simpl. by rewrite Hs.
Qed.

Lemma spawned_for_join h b v (F : Any → list Handler) ks :
  spawned_for h (mjoin ((λ t, mkCall b t v <$> F t) <$> ks)) =
  sum_list_with (λ t, occ h (F t)) ks.
Proof.
  induction ks as [|k ks IH]; [done|].
  rewrite fmap_cons. change (mjoin (?x :: ?l)) with (x ++ mjoin l).
  by rewrite spawned_for_app, spawned_for_mkCall, IH.
Qed.

Lemma sum_indicator (f : Any → nat) (ks ts : list Any) :
  NoDup ks → NoDup ts →
  (∀ t, f t = if decide (t ∈ ts) then 1 else 0) →
  (∀ t, t ∈ ts → t ∈ ks) →
  sum_list_with f ks = length ts.
Proof.
  intros Hks Hts Hf Hsub.
  assert (Hsum : sum_list_with f ks = length (filter (.∈ ts) ks)).
  { clear Hks Hsub. induction ks as [|k ks IH]; [done|]. simpl.
    rewrite IH, Hf. case_decide.
    - by rewrite filter_cons_True.
    - by rewrite filter_cons_False. }
  rewrite Hsum. apply Permutation_length, NoDup_Permutation; [|done|].
  - by apply NoDup_filter.
  - intros t. rewrite list_elem_of_filter. split; [by intros [Ht _]|].
    intros Ht. split; [done|by apply Hsub].
Qed.

Lemma Subscribe_keeps_nil_free w b t h u w' :
  wf w → h ≠ HNil → Subscribe b t h w = Ok u w' →
  (∀ b2 t2, HNil ∉ handlers w b2 t2) → ∀ b2 t2, HNil ∉ handlers w' b2 t2.
Proof.
  intros Hwf Hh Hs Hno b2 t2.
  destruct (Subscribe_inv w b t h u w' Hwf Hs) as (_ & _ & Hh' & Hfr & _).
  destruct (decide ((b2, t2) = (b, t))) as [[= -> ->]|Hne].
  - rewrite Hh'. apply not_elem_of_app. split; [apply Hno|].
    intros Heq%list_elem_of_singleton. congruence.
  - destruct (Hfr b2 t2 Hne) as [_ ->]. apply Hno.
Qed.

(** C7 (amended). On a bus on which no handler registered is the nil
    interface, PublishAll returns as its count the sum, over the topics of
    the bus, of the lengths of their handler lists as they are at the call,
    and starts one invocation per element of each list; so a handler that
    is registered once on each of [n] distinct topics, and nowhere else on
    the bus, is counted and started [n] times.  When a nil handler is
    registered on a topic of the bus, PublishAll panics. *)
Theorem publish_all_counts_per_topic w b bs v :
  reachable w → buses w !! b = Some bs →
  let keys := (map_to_list (topics bs)).*1 in
  let g := mjoin ((λ t, mkCall b t v <$> handlers w b t) <$> keys) in
  ((∀ t, HNil ∉ handlers w b t) →
     PublishAll b v w = Ok (length g, None) (set_spawned (spawned w ++ g) w)) ∧
  (∀ t, HNil ∈ handlers w b t → PublishAll b v w = Panic) ∧
  length g = sum_list_with (λ t, length (handlers w b t)) keys ∧
  (∀ t, t ∉ keys → handlers w b t = []) ∧
  (∀ h, spawned_for h g = sum_list_with (λ t, occ h (handlers w b t)) keys) ∧
  (∀ h ts, NoDup ts →
     (∀ t, occ h (handlers w b t) = if decide (t ∈ ts) then 1 else 0) →
     spawned_for h g = length ts).
Proof.
  intros Hreach Hb keys g. pose proof (reachable_wf w Hreach) as Hwf.
  assert (Hin : ∀ x, x ∈ map_to_list (topics bs) →
    elems (arrays w) x.2 = handlers w b x.1 ∧ len x.2 = length (handlers w b x.1)).
  { intros [t hs] Hx. apply elem_of_map_to_list in Hx. simpl.
    assert (Hs : slice_of w b t = Some hs) by (apply slice_of_Some; eauto).
    split; [|by rewrite (handlers_length w b t hs)].
    unfold handlers. by rewrite Hs. }
  assert (Hg : mjoin ((λ x, mkCall b x.1 v <$> elems (arrays w) x.2)
                        <$> map_to_list (topics bs)) = g).
  { unfold g, keys. rewrite <-list_fmap_compose. f_equal.
    apply list_fmap_ext. intros i x Hx. simpl.
    by destruct (Hin x) as [-> _]; [by eapply list_elem_of_lookup_2|]. }
  assert (Hc : sum_list_with (λ x, len x.2) (map_to_list (topics bs)) =
               sum_list_with (λ t, length (handlers w b t)) keys).
  { unfold keys. clear Hg. induction (map_to_list (topics bs)) as [|x l IH]; [done|].
    simpl. rewrite IH.
    - by destruct (Hin x) as [_ ->]; [left|].
    - intros y Hy. apply Hin. by right. }
  assert (Hlen : length g = sum_list_with (λ t, length (handlers w b t)) keys).
  { unfold g. clear. induction keys as [|k ks IH]; [done|].
    rewrite fmap_cons. change (mjoin (?x :: ?l)) with (x ++ mjoin l).
    by rewrite length_app, length_fmap, IH. }
  assert (Hkeys : ∀ t, t ∉ keys → handlers w b t = []).
  { intros t Ht. unfold handlers. rewrite (slice_of_topics w b bs t Hb).
    destruct (topics bs !! t) as [s|] eqn:Hs; [|done].
    exfalso. apply Ht. unfold keys. apply list_elem_of_fmap.
    exists (t, s). split; [done|]. by apply elem_of_map_to_list. }
  split_and!; try done.
  - intros Hno.
    destruct (PublishAll_returns w b bs v Hb) as [[_ ->]|[[t Ht] _]].
    + by rewrite Hg, Hc, <-Hlen.
    + by destruct (Hno t).
  - intros t Ht.
    destruct (PublishAll_returns w b bs v Hb) as [[Hno _]|[_ ->]]; [|done].
    by destruct (Hno t).
  - intros h. apply spawned_for_join.
  - intros h ts Hts Hocc. unfold g. rewrite spawned_for_join.
    apply sum_indicator; [apply NoDup_fst_map_to_list|done..|].
    intros t Ht. destruct (decide (t ∈ keys)) as [|Hn]; [done|].
    specialize (Hocc t). rewrite decide_True, (Hkeys t Hn) in Hocc by done. done.
Qed.

Lemma SubscribeFunc_alloc b t f w u w' :
  SubscribeFunc b t f w = Ok u w' →
  u = Unsubscribe b t (HPtr (length (cells w))) ∧ cells w' = cells w ++ [f].
Proof.
  unfold SubscribeFunc, Subscribe. simpl.
  destruct (buses w !! b) as [bs|]; [|done].
  destruct (match topics bs !! t with Some _ => _ | None => _ end) as [s m].
  by intros [= <- <-].
Qed.

(** C9 (amended). SubscribeFunc stores the function in a newly allocated
    HandlerFunc variable, which keeps holding it, and appends the pointer
    to that variable to the topic's list.  The pointer is the address of no
    variable allocated before, and differs from the pointer of every other
    SubscribeFunc call and of every HandlerFunc variable a client
    allocates, earlier or later, whatever the function.  The capability
    returned is Unsubscribe with that pointer.  An Unsubscribe with any
    other handler never removes a registration of the wrapper: whenever it
    returns, the wrapper is registered as often as before on every topic.
    Given a pointer or nil handler other than the wrapper, Unsubscribe on
    an existing bus returns false when that handler is not registered on
    the topic and true when it is; given a HandlerFunc value it returns
    false whenever it returns.  The package-level SubscribeFunc is this
    call on the default bus. *)
Theorem subscribe_func_fresh_wrapper w b t f u w1 :
  reachable w → SubscribeFunc b t f w = Ok u w1 →
  let hf := HPtr (length (cells w)) in
  u = Unsubscribe b t hf ∧
  cells w !! length (cells w) = None ∧
  handlers w1 b t = handlers w b t ++ [hf] ∧
  (∀ w2, steps w1 w2 → cells w2 !! length (cells w) = Some f) ∧
  (∀ w0 b0 t0 f0 u0 w0',
     SubscribeFunc b0 t0 f0 w0 = Ok u0 w0' → steps w0' w →
     HPtr (length (cells w0)) ≠ hf) ∧
  (∀ w0 f0, steps (new_handler f0 w0).2 w → (new_handler f0 w0).1 ≠ hf) ∧
  (∀ w2 b' t' f' u' w3, steps w1 w2 → SubscribeFunc b' t' f' w2 = Ok u' w3 →
     HPtr (length (cells w2)) ≠ hf ∧
     u' = Unsubscribe b' t' (HPtr (length (cells w2)))) ∧
  (∀ w2 f', steps w1 w2 → (new_handler f' w2).1 ≠ hf) ∧
  (∀ w2 b' t' h r w3 b2 t2, steps w1 w2 → h ≠ hf →
     Unsubscribe b' t' h w2 = Ok r w3 →
     occ hf (handlers w3 b2 t2) = occ hf (handlers w2 b2 t2)) ∧
  (∀ w2 b' t' h, steps w1 w2 → h ≠ hf → comparable h →
     is_Some (buses w2 !! b') →
     (occ h (handlers w2 b' t') = 0 → Unsubscribe b' t' h w2 = Ok false w2) ∧
     (0 < occ h (handlers w2 b' t') →
        ∃ w3, Unsubscribe b' t' h w2 = Ok true w3)) ∧
  (∀ w2 b' t' g r w3, steps w1 w2 →
     Unsubscribe b' t' (HFunc g) w2 = Ok r w3 → r = false ∧ w3 = w2) ∧
  Pkg.SubscribeFunc t f w =
    SubscribeFunc (Pkg.getDefaultBus w).1 t f (Pkg.getDefaultBus w).2 ∧
  reachable (Pkg.getDefaultBus w).2.
Proof.
  intros Hreach Hs hf. pose proof (reachable_wf w Hreach) as Hwf.
  assert (Hb : is_Some (buses w !! b)).
  { unfold SubscribeFunc, Subscribe in Hs. simpl in Hs.
    by destruct (buses w !! b). }
  destruct Hb as [bs Hb].
  destruct (SubscribeFunc_ok w b bs t f Hwf Hb)
    as (w1' & Hs' & Hwf1 & Hh & Hfr & Hlen & Hd & Hcells & Hsp).
  rewrite Hs' in Hs. injection Hs as <- <-.
  assert (Hlater : ∀ w2, steps w1' w2 → length (cells w) < length (cells w2)).
  { intros w2 Hsteps. destruct (steps_grows _ _ Hsteps) as [_ Hpre].
    apply prefix_length in Hpre. rewrite Hcells, length_app in Hpre.
    simpl in Hpre. lia. }
  split_and!; try done.
  - by apply lookup_ge_None_2.
  - intros w2 Hsteps. destruct (steps_grows _ _ Hsteps) as [_ Hpre].
    eapply prefix_lookup_Some; [|exact Hpre].
    by rewrite Hcells, lookup_app_r, Nat.sub_diag.
  - intros w0 b0 t0 f0 u0 w0' Hs0 Hsteps.
    destruct (SubscribeFunc_alloc _ _ _ _ _ _ Hs0) as [_ Hc0].
    destruct (steps_grows _ _ Hsteps) as [_ Hpre].
    apply prefix_length in Hpre. rewrite Hc0, length_app in Hpre.
    simpl in Hpre. unfold hf. intros [= Heq]. lia.
  - intros w0 f0 Hsteps. destruct (steps_grows _ _ Hsteps) as [_ Hpre].
    apply prefix_length in Hpre. simpl in Hpre. rewrite length_app in Hpre.
    simpl in Hpre. unfold hf. simpl. intros [= Heq]. lia.
  - intros w2 b' t' f' u' w3 Hsteps Hs2.
    pose proof (Hlater w2 Hsteps).
    split; [unfold hf; intros [= Heq]; lia|].
    by destruct (SubscribeFunc_alloc _ _ _ _ _ _ Hs2).
  - intros w2 f' Hsteps. pose proof (Hlater w2 Hsteps).
    unfold hf. simpl. intros [= Heq]. lia.
  - intros w2 b' t' h r w3 b2 t2 Hsteps Hne Hu.
    pose proof (steps_wf _ _ Hwf1 Hsteps) as Hwf2.
    destruct (Unsubscribe_inv w2 b' t' h r w3 Hwf2 Hu)
      as [(_ & -> & _)|(_ & i & Hscan & _ & Hdel & Hfr3 & _)]; [done|].
    destruct (decide ((b2, t2) = (b', t'))) as [[= -> ->]|Hother].
    + rewrite Hdel. destruct (scan_Found _ _ _ Hscan) as (h2 & Hi & Heq & _).
      apply (occ_delete_other _ _ _ h2 Hi).
      destruct (same hf h2) eqn:Hsame; [|done].
      apply same_ptr in Hsame as ->. exfalso. apply Hne.
      destruct h as [|q|g]; simpl in Heq; [done| |done].
      case_bool_decide; [by subst|done].
    + by destruct (Hfr3 b2 t2 Hother) as [_ ->].
  - intros w2 b' t' h Hsteps Hne Hc [bs2 Hb2].
    pose proof (steps_wf _ _ Hwf1 Hsteps) as Hwf2.
    pose proof (scan_occ h (handlers w2 b' t')) as Hocc.
    destruct (scan h (handlers w2 b' t') 0) as [i| |] eqn:Hscan; [| |done].
    + destruct (Unsubscribe_found w2 b' bs2 t' h i Hwf2 Hb2 Hscan)
        as (w3 & Hu & _).
      split; [lia|]. intros _. by exists w3.
    + split; [|lia]. intros _. by eapply Unsubscribe_notfound.
  - intros w2 b' t' g r w3 Hsteps Hu.
    pose proof (steps_wf _ _ Hwf1 Hsteps) as Hwf2.
    destruct (Unsubscribe_inv w2 b' t' (HFunc g) r w3 Hwf2 Hu)
      as [(-> & -> & _)|(_ & i & Hscan & _)]; [done|].
    destruct (scan_Found _ _ _ Hscan) as (h2 & _ & Heq & _).
    by destruct h2.
  - unfold Pkg.SubscribeFunc. by destruct (Pkg.getDefaultBus w).
  - eapply reach_step; [done|apply step_getDefaultBus].
Qed.

(** *** OnceFunc *)

Lemma bind_bind {A B C} (r : Res A) (k : A → World → Res B)
    (k' : B → World → Res C) :
  bind (bind r k) k' = bind r (λ a w, bind (k a w) k').
Proof. by destruct r. Qed.

Lemma exec_seq publish p q w :
  exec publish (seq p q) w =
  bind (exec publish p w) (λ _ w', exec publish q w').
Proof.
  revert w.
  induction p as [|b t h k IH|b t f _ k IH|b t h k IH|b t v fl k IH|b v k IH];
    intros w; simpl; [done|..]; rewrite bind_bind;
    match goal with |- bind ?r _ = _ => destruct r; simpl; auto end.
Qed.

Lemma or_flags_nil : Z.land (or_flags []) Async = 0%Z.
Proof. done. Qed.

(** The run of [TestOnce] in general: after OnceFunc registered [f] on a
    topic [t] that had no subscriber, and provided the call of [f] returns
    and leaves the handler list of [t] alone, the first synchronous
    Publish(t, v) invokes the registered handler exactly once and returns
    count 1, and a second Publish(t, v) invokes nothing and returns
    count 0. *)
Lemma once_func_alone_runs_once w b t f v fuel u w1 w1' :
  reachable w → handlers w b t = [] →
  OnceFunc b t f w = Ok u w1 →
  run fuel (f b t v) w1 = Ok () w1' →
  handlers w1' b t = handlers w1 b t →
  let hf := HPtr (length (cells w)) in
  ∃ w2,
    Publish fuel b t v [] w1 =
      Ok {| count := 1; err := None; invoked := [hf] |} w2 ∧
    Publish fuel b t v [] w2 =
      Ok {| count := 0; err := None; invoked := [] |} w2 ∧
    handlers w1 b t = [hf] ∧ handlers w2 b t = [] ∧
    u w2 = Ok false w2.
Proof.
  intros Hreach Hnil Honce Hf Hsame hf.
  pose proof (reachable_wf w Hreach) as Hwf.
  assert (Hb : is_Some (buses w !! b)).
  { unfold OnceFunc, SubscribeFunc, Subscribe in Honce. simpl in Honce.
    by destruct (buses w !! b). }
  destruct Hb as [bs Hb]. unfold OnceFunc in Honce.
  destruct (SubscribeFunc_ok w b bs t
              (once_wrapper b t (length (cells w)) f) Hwf Hb)
    as (w1_ & Hs' & Hwf1 & Hh & Hfr & Hlen & Hd & Hcells & Hsp).
  rewrite Hs' in Honce. injection Honce as <- <-.
  rewrite Hnil in Hh. simpl in Hh. fold hf in Hh.
  (* the state in which the wrapper unsubscribes itself *)
  pose proof (run_wf fuel _ _ _ _ Hwf1 Hf) as Hwf1'.
  destruct (run_grows fuel _ _ _ _ Hf) as [Hbl _].
  destruct (lookup_lt_is_Some_2 (buses w1') b) as [bs1' Hb1'].
  { apply lookup_lt_Some in Hb. lia. }
  assert (Hscan : scan hf (handlers w1' b t) 0 = Found 0).
  { rewrite Hsame, Hh. simpl. by rewrite bool_decide_eq_true_2. }
  destruct (Unsubscribe_found w1' b bs1' t hf 0 Hwf1' Hb1' Hscan)
    as (w2 & Hu & Hwf2 & Hh2 & Hfr2).
  rewrite Hsame, Hh in Hh2. simpl in Hh2.
  destruct (lookup_lt_is_Some_2 (buses w2) b) as [bs2 Hb2].
  { destruct Hfr2 as (_ & -> & _). by eapply lookup_lt_Some. }
  exists w2. split_and!; try done.
  - (* first publish *)
    destruct (lookup_lt_is_Some_2 (buses w1_) b) as [bs1 Hb1].
    { rewrite Hlen. by eapply lookup_lt_Some. }
    unfold Publish, Publish_with. rewrite Hb1.
    pose proof (snapshot_length w1_ b bs1 t Hwf1 Hb1) as Hsl.
    rewrite Hh in Hsl. simpl in Hsl. rewrite Hsl.
    rewrite decide_False by (by rewrite or_flags_nil; intros []).
    pose proof (handlers_elems w1_ b bs1 t Hb1) as He. rewrite Hh in He.
    unfold elems in He. rewrite Hsl in He. simpl.
    destruct (arrays w1_ !! ptr (default nil_slice (topics bs1 !! t)))
      as [[|h0 arr]|]; simpl in He; try done.
    injection He as <-. simpl.
    rewrite Hcells, lookup_app_r, Nat.sub_diag by done. simpl.
    destruct fuel as [|n]; [done|]. simpl in Hf |- *.
    unfold once_wrapper. rewrite exec_seq, Hf. simpl.
    fold hf. by rewrite Hu.
  - (* second publish *)
    destruct (Publish_returns w2 b bs2 t v [] fuel Hwf2 Hb2) as (_ & _ & _ & H3).
    destruct (H3 Hh2) as (w3 & Hp). rewrite Hp. f_equal.
    unfold Publish, Publish_with in Hp. rewrite Hb2 in Hp.
    rewrite decide_False in Hp by (by rewrite or_flags_nil; intros []).
    rewrite (snapshot_length w2 b bs2 t Hwf2 Hb2), Hh2 in Hp. simpl in Hp.
    by injection Hp.
  - eapply Unsubscribe_notfound; [done|]. by rewrite Hh2.
Qed.

(** *** The package-level functions *)

(** Once created, the default bus stays the same bus. *)
Lemma getDefaultBus_once w :
  Pkg.getDefaultBus (Pkg.getDefaultBus w).2 = Pkg.getDefaultBus w.
Proof.
  unfold Pkg.getDefaultBus. destruct (defaultBus w) as [d|] eqn:Hd; simpl.
  - by rewrite Hd.
  - done.
Qed.

(** Subscribe, SubscribeFunc and Publish hand on the result of the method
    called on the default bus. *)
Lemma package_functions_delegate w t h f v flags fuel :
  let b := (Pkg.getDefaultBus w).1 in
  let w' := (Pkg.getDefaultBus w).2 in
  Pkg.Subscribe t h w = Subscribe b t h w' ∧
  Pkg.SubscribeFunc t f w = SubscribeFunc b t f w' ∧
  Pkg.Publish fuel t v flags w = Publish fuel b t v flags w' ∧
  Pkg.Unsubscribe t h w = bind (Unsubscribe b t h w') (λ _ w'', Ok () w'').
Proof.
  unfold Pkg.Subscribe, Pkg.SubscribeFunc, Pkg.Publish, Pkg.Unsubscribe.
  by destruct (Pkg.getDefaultBus w).
Qed.

(** C10. Subscribe and Unsubscribe on topic [t] of bus [b] leave the
    handler list (and the map entry) of every other topic, on every bus,
    as it was; an Unsubscribe that returns false leaves the whole state,
    hence the whole topic map, as it was. *)
Theorem subscribe_unsubscribe_frame w :
  reachable w →
  (∀ b t h u w' b2 t2, Subscribe b t h w = Ok u w' → (b2, t2) ≠ (b, t) →
     handlers w' b2 t2 = handlers w b2 t2 ∧ slice_of w' b2 t2 = slice_of w b2 t2) ∧
  (∀ b t h r w' b2 t2, Unsubscribe b t h w = Ok r w' → (b2, t2) ≠ (b, t) →
     handlers w' b2 t2 = handlers w b2 t2 ∧ slice_of w' b2 t2 = slice_of w b2 t2) ∧
  (∀ b t h w', Unsubscribe b t h w = Ok false w' → w' = w).
Proof.
  intros Hreach. pose proof (reachable_wf w Hreach) as Hwf. split_and!.
  - intros b t h u w' b2 t2 Hs Hne.
    destruct (Subscribe_inv w b t h u w' Hwf Hs) as (_ & _ & _ & Hfr & _).
    by destruct (Hfr b2 t2 Hne).
  - intros b t h r w' b2 t2 Hu Hne.
    destruct (Unsubscribe_inv w b t h r w' Hwf Hu)
      as [(_ & -> & _)|(_ & i & _ & _ & _ & Hfr & _)]; [done|].
    by destruct (Hfr b2 t2 Hne).
  - intros b t h w' Hu. by destruct (Unsubscribe_false_inv w b t h w' Hu).
Qed.

End reach.

Lemma reachable_w_bus : reachable w_bus.
Proof. apply (reach_step boot); [apply reach_boot|apply step_NewBus]. Qed.

Lemma reachable_w_one : reachable w_one.
Proof.
  apply (reach_step w_bus); [apply reachable_w_bus|].
  by eapply (step_SubscribeFunc 0 T quit).
Qed.

Lemma reachable_w_two : reachable w_two.
Proof.
  apply (reach_step w_one); [apply reachable_w_one|].
  by eapply (step_SubscribeFunc 0 T idle).
Qed.

Lemma reachable_w_three : reachable w_three.
Proof.
  apply (reach_step w_two); [apply reachable_w_two|].
  by eapply (step_SubscribeFunc 0 T idle).
Qed.

Lemma reachable_w_ptr : reachable w_ptr.
Proof. apply (reach_step w_bus); [apply reachable_w_bus|apply step_new_handler]. Qed.

(** *** The tests of the repository, replayed *)

(** [TestEmpty] *)
Example test_empty :
  value (Publish 1 0 (AString "hello") (AString "world") [] w_bus)
  = Some {| count := 0; err := None; invoked := [] |}.
Proof. done. Qed.

(** [TestDefaultBus], from the state in which the package was never used. *)
Example test_default_bus :
  value (bind (Pkg.Publish 1 (AString "hello") (AString "world") [] boot) (λ r1 w1,
         bind (Pkg.SubscribeFunc T idle w1) (λ dereg w2,
         bind (Pkg.Publish 1 T V [] w2) (λ r2 w3,
         bind (dereg w3) (λ d w4,
         Ok (count r1, err r1, count r2, err r2, d) w4)))))
  = Some (0, None, 1, None, true).
Proof. done. Qed.

(** [TestPublish]: the counts, the handlers invoked and the results of the
    two capabilities. *)
Example test_publish :
  value (bind (SubscribeFunc 0 T idle w_bus) (λ dereg1 w1,
         bind (Publish 1 0 T V [] w1) (λ r1 w2,
         bind (SubscribeFunc 0 T idle w2) (λ dereg2 w3,
         bind (Publish 1 0 T V [] w3) (λ r2 w4,
         bind (dereg1 w4) (λ d1 w5,
         bind (Publish 1 0 T V [] w5) (λ r3 w6,
         bind (dereg2 w6) (λ d2 w7,
         Ok (r1, r2, d1, r3, d2) w7))))))))
  = Some ({| count := 1; err := None; invoked := [HPtr 0] |},
          {| count := 2; err := None; invoked := [HPtr 0; HPtr 1] |}, true,
          {| count := 1; err := None; invoked := [HPtr 1] |}, true).
Proof. done. Qed.

(** [TestPublishAsync]: the call returns the count at once and has started
    one goroutine. *)
Example test_publish_async :
  match bind (Pkg.SubscribeFunc T idle boot) (λ _ w1,
              Pkg.Publish 0 T V [Async] w1) with
  | Ok r w => count r = 1 ∧ err r = None ∧ invoked r = [] ∧
              spawned w = [mkCall 0 T V (HPtr 0)]
  | _ => False
  end.
Proof. done. Qed.

(** [TestOnce], with [OnceFunc] as modelled. *)
Example test_once :
  value (bind (Pkg.OnceFunc T idle boot) (λ _ w1,
         bind (Pkg.Publish 1 T V [] w1) (λ r1 w2,
         bind (Pkg.Publish 1 T V [] w2) (λ r2 w3,
         Ok (count r1, err r1, count r2, err r2) w3))))
  = Some (1, None, 0, None).
Proof. done. Qed.

(** [TestOnceAync]: both asynchronous publishes find the handler still
    subscribed, since no goroutine has run yet. *)
Example test_once_async :
  value (bind (Pkg.OnceFunc T idle boot) (λ _ w1,
         bind (Pkg.Publish 0 T V [Async] w1) (λ r1 w2,
         bind (Pkg.Publish 0 T V [Async] w2) (λ r2 w3,
         Ok (count r1, err r1, count r2, err r2, length (spawned w3)) w3))))
  = Some (1, None, 1, None, 2).
Proof. done. Qed.

(** C1. On a bus where "test" has the handlers [h0, h1, h2] in
    subscription order and [h0] unsubscribes itself when invoked, one
    synchronous Publish invokes [h0], [h2], [h2]: [h1], which stays
    subscribed throughout, is never invoked and [h2] is invoked twice,
    because the removal shifts the array that the publish iterates over. *)
Theorem publish_sees_reentrant_removal :
  handlers w_three 0 T = [HPtr 0; HPtr 1; HPtr 2] ∧
  ∃ w', Publish 1 0 T V [] w_three =
          Ok {| count := 3; err := None;
                invoked := [HPtr 0; HPtr 2; HPtr 2] |} w' ∧
        handlers w' 0 T = [HPtr 1; HPtr 2].
Proof. split; [done|]. eexists. split; [by vm_compute|done]. Qed.

(** C2. Unsubscribe panics, instead of returning a boolean, when it is
    given a HandlerFunc value and the topic holds a HandlerFunc value:
    the two interface values have the same uncomparable dynamic type. *)
Theorem unsubscribe_func_value_panics :
  handlers w_func 0 T = [HFunc idle] ∧
  Unsubscribe 0 T (HFunc idle) w_func = Panic ∧
  (∃ u, Subscribe 0 T (HFunc idle) w_bus = Ok u w_func ∧ u w_func = Panic).
Proof. split_and!; [done..|]. by eexists. Qed.

(** C3. The package-level Unsubscribe changes the default bus as the
    method does, but returns nothing: whether the method returns true or
    false, the caller of the package-level function gets the same unit. *)
Theorem package_unsubscribe_drops_result :
  defaultBus w_default = Some 0 ∧
  ∃ w', Unsubscribe 0 T (HPtr 0) w_default = Ok true w' ∧
        Pkg.Unsubscribe T (HPtr 0) w_default = Ok () w' ∧
        Unsubscribe 0 T (HPtr 0) w' = Ok false w' ∧
        Pkg.Unsubscribe T (HPtr 0) w' = Ok () w'.
Proof. split; [done|]. eexists. by split_and!. Qed.

(** C8. With three functions registered by OnceFunc on "test", the first
    synchronous Publish invokes the first wrapper, then the third wrapper
    twice: the third function runs twice (two marks on topic 3) and the
    second not at all, and the second wrapper is still subscribed, so that
    the second Publish invokes it and returns count 1. *)
Theorem once_func_runs_twice :
  handlers w_once3 0 T = [HPtr 0; HPtr 1; HPtr 2] ∧
  ∃ w' w'',
    Publish 1 0 T V [] w_once3 =
      Ok {| count := 3; err := None; invoked := [HPtr 0; HPtr 2; HPtr 2] |} w' ∧
    length (handlers w' 0 (AInt 1)) = 1 ∧
    length (handlers w' 0 (AInt 2)) = 0 ∧
    length (handlers w' 0 (AInt 3)) = 2 ∧
    handlers w' 0 T = [HPtr 1] ∧
    Publish 1 0 T V [] w' =
      Ok {| count := 1; err := None; invoked := [HPtr 1] |} w'' ∧
    length (handlers w'' 0 (AInt 2)) = 1 ∧
    handlers w'' 0 T = [].
Proof.
  split; [done|]. do 2 eexists.
  split; [by vm_compute|]. do 4 (split; [done|]).
  split; [by vm_compute|]. done.
Qed.

(** C4, refuted as stated: a handler subscribed twice to the same topic;
    the capability of the first subscription returns true on its first
    invocation and true again on its second. *)
Lemma capability_succeeds_twice :
  value (bind (Subscribe 0 T (HPtr 0) w_ptr) (λ u w1,
         bind (Subscribe 0 T (HPtr 0) w1) (λ _ w2,
         bind (u w2) (λ r1 w3,
         bind (u w3) (λ r2 w4, Ok (r1, r2) w4))))) = Some (true, true).
Proof. done. Qed.

(** C9, refuted as stated: with two SubscribeFunc registrations on a
    topic, Unsubscribe with the first wrapper, which is a handler other
    than the wrapper of the second call, returns true. *)
Lemma unsubscribe_other_wrapper_succeeds :
  ∃ u w1 w', SubscribeFunc 0 T idle w_one = Ok u w1 ∧
             HPtr 0 ≠ HPtr (length (cells w_one)) ∧
             Unsubscribe 0 T (HPtr 0) w1 = Ok true w'.
Proof. do 3 eexists. by split_and!. Qed.

Lemma reachable_w_nil : reachable w_nil.
Proof.
  apply (reach_step w_bus); [apply reachable_w_bus|].
  by eapply (step_Subscribe 0 T HNil).
Qed.


(** C7, refuted as stated: on the same bus PublishAll does not return a
    count either: it panics. *)
Lemma publish_all_nil_handler_panics :
  reachable w_nil ∧ handlers w_nil 0 T = [HNil] ∧
  PublishAll 0 V w_nil = Panic.
Proof. split; [apply reachable_w_nil|]. by split. Qed.


Lemma reachable_w_sub : reachable w_sub.
Proof.
  apply (reach_step w_ptr); [apply reachable_w_ptr|].
  by eapply (step_Subscribe 0 T (HPtr 0)).
Qed.

Lemma reachable_w_sub2 : reachable w_sub2.
Proof.
  apply (reach_step w_sub); [apply reachable_w_sub|].
  by eapply (step_Subscribe 0 T2 (HPtr 0)).
Qed.

(** Witnesses: the theorems applied to the concrete runs. *)

Lemma capability_calls_witness :
  reachable w_ptr ∧ comparable (HPtr 0) ∧
  Subscribe 0 T (HPtr 0) w_ptr = Ok (Unsubscribe 0 T (HPtr 0)) w_sub ∧
  ∃ w3, Unsubscribe 0 T (HPtr 0) w_sub = Ok true w3 ∧
        Unsubscribe 0 T (HPtr 0) w3 = Ok false w3.
Proof.
  split; [exact reachable_w_ptr|]. split; [exact I|]. split; [reflexivity|].
  destruct (capability_calls w_ptr 0 T (HPtr 0) (Unsubscribe 0 T (HPtr 0)) w_sub
              reachable_w_ptr I eq_refl) as [_ Hlater].
  destruct (Hlater w_sub (rtc_refl _ _)) as (_ & Hpos & Honce).
  destruct Hpos as (w3 & Hu & _); [vm_compute; lia|].
  exists w3. split; [exact Hu|]. apply Honce; [reflexivity|exact Hu].
Defined.

Lemma topic_key_iff_handlers_witness :
  reachable w_sub ∧
  buses w_sub !! 0 = Some (default {| topics := ∅ |} (buses w_sub !! 0)) ∧
  (is_Some (topics (default {| topics := ∅ |} (buses w_sub !! 0)) !! T) ↔
   handlers w_sub 0 T ≠ []).
Proof.
  split; [exact reachable_w_sub|]. split; [reflexivity|].
  exact (proj1 (topic_key_iff_handlers w_sub reachable_w_sub) 0 _ T eq_refl).
Defined.

Lemma tame_at_w_three h :
  h ∈ handlers w_three 0 T → tame_at (length (buses w_three)) w_three h.
Proof.
  intros Hin. change (h ∈ [HPtr 0; HPtr 1; HPtr 2]) in Hin.
  apply elem_of_cons in Hin as [->|Hin].
  { exists quit. split; [done|]. intros b t v Hb. by split_and!. }
  apply elem_of_cons in Hin as [->|Hin]; [by exists idle|].
  apply elem_of_cons in Hin as [->|Hin]; [by exists idle|].
  by apply elem_of_nil in Hin.
Qed.

Lemma nil_free_w_ptr b t : HNil ∉ handlers w_ptr b t.
Proof.
  unfold handlers, slice_of. destruct b as [|b]; simpl.
  - rewrite lookup_empty. apply not_elem_of_nil.
  - destruct b; apply not_elem_of_nil.
Qed.

Lemma nil_free_w_sub2 b t : HNil ∉ handlers w_sub2 b t.
Proof.
  revert b t.
  eapply (Subscribe_keeps_nil_free w_sub 0 T2 (HPtr 0));
    [apply reachable_wf, reachable_w_sub|done|done|].
  eapply (Subscribe_keeps_nil_free w_ptr 0 T (HPtr 0));
    [apply reachable_wf, reachable_w_ptr|done|done|].
  apply nil_free_w_ptr.
Qed.


Lemma publish_all_counts_per_topic_witness :
  reachable w_sub2 ∧
  buses w_sub2 !! 0 = Some (default {| topics := ∅ |} (buses w_sub2 !! 0)) ∧
  (∀ t, HNil ∉ handlers w_sub2 0 t) ∧
  ∃ g, PublishAll 0 V w_sub2 =
         Ok (length g, None) (set_spawned (spawned w_sub2 ++ g) w_sub2) ∧
       length g = 2 ∧ spawned_for (HPtr 0) g = 2.
Proof.
  split; [exact reachable_w_sub2|]. split; [reflexivity|].
  split; [exact (nil_free_w_sub2 0)|].
  destruct (publish_all_counts_per_topic w_sub2 0 _ V reachable_w_sub2 eq_refl)
    as (Hp & _ & Hlen & _ & Hfor & _).
  eexists. split; [exact (Hp (nil_free_w_sub2 0))|]. split.
  - exact Hlen.
  - exact (Hfor (HPtr 0)).
Defined.

Lemma once_func_alone_runs_once_example :
  reachable w_bus ∧ handlers w_bus 0 T = [] ∧
  OnceFunc 0 T idle w_bus = Ok (Unsubscribe 0 T (HPtr 0)) w_once ∧
  run 1 (idle 0 T V) w_once = Ok () w_once ∧
  handlers w_once 0 T = handlers w_once 0 T ∧
  ∃ w2, Publish 1 0 T V [] w_once =
          Ok {| count := 1; err := None; invoked := [HPtr 0] |} w2 ∧
        Publish 1 0 T V [] w2 =
          Ok {| count := 0; err := None; invoked := [] |} w2.
Proof.
  split; [exact reachable_w_bus|]. do 4 (split; [reflexivity|]).
  destruct (once_func_alone_runs_once w_bus 0 T idle V 1 (Unsubscribe 0 T (HPtr 0))
              w_once w_once reachable_w_bus eq_refl eq_refl eq_refl eq_refl)
    as (w2 & H1 & H2 & _).
  exists w2. split; [exact H1|exact H2].
Defined.

Lemma subscribe_func_fresh_wrapper_witness :
  reachable w_one ∧
  SubscribeFunc 0 T idle w_one = Ok (Unsubscribe 0 T (HPtr 1)) w_two ∧
  handlers w_two 0 T = [HPtr 0; HPtr 1] ∧
  HPtr (length (cells w_bus)) ≠ HPtr 1 ∧
  Unsubscribe 0 T (HPtr 7) w_two = Ok false w_two ∧
  ∃ w3, Unsubscribe 0 T (HPtr 0) w_two = Ok true w3 ∧
        occ (HPtr 1) (handlers w3 0 T) = 1.
Proof.
  split; [exact reachable_w_one|]. split; [reflexivity|].
  destruct (subscribe_func_fresh_wrapper w_one 0 T idle (Unsubscribe 0 T (HPtr 1))
              w_two reachable_w_one eq_refl)
    as (_ & _ & Hh & _ & Hearlier & _ & _ & _ & Hkeep & Hother & _).
  split; [exact Hh|].
  split; [exact (Hearlier w_bus 0 T quit _ w_one eq_refl (rtc_refl _ _))|].
  assert (Hbus : is_Some (buses w_two !! 0)) by (eexists; reflexivity).
  split.
  - apply (Hother w_two 0 T (HPtr 7) (rtc_refl _ _)); [discriminate|exact I|exact Hbus|].
    reflexivity.
  - destruct (proj2 (Hother w_two 0 T (HPtr 0) (rtc_refl _ _)
                       ltac:(discriminate) I Hbus)) as (w3 & Hu);
      [vm_compute; lia|].
    exists w3. split; [exact Hu|].
    exact (Hkeep w_two 0 T (HPtr 0) true w3 0 T (rtc_refl _ _)
             ltac:(discriminate) Hu).
Defined.

Lemma subscribe_unsubscribe_frame_witness :
  reachable w_sub ∧
  Subscribe 0 T2 (HPtr 0) w_sub = Ok (Unsubscribe 0 T2 (HPtr 0)) w_sub2 ∧
  (0, T) ≠ (0, T2) ∧
  handlers w_sub2 0 T = handlers w_sub 0 T.
Proof.
  split; [exact reachable_w_sub|]. split; [reflexivity|].
  split; [discriminate|].
  destruct (subscribe_unsubscribe_frame w_sub reachable_w_sub) as (Hsub & _ & _).
  apply (Hsub 0 T2 (HPtr 0) (Unsubscribe 0 T2 (HPtr 0)) w_sub2 0 T eq_refl).
  discriminate.
Defined.

(** ** Further properties of the operations *)

Section further.
Context `{!Growth}.

(** X1. In every reachable state each stored slice is non-empty and lies
    within its own backing array, whose length is the slice's capacity; no
    two topics, on the same bus or on different buses, share a backing
    array; and the default-bus pointer, once set, points to a bus. *)
Theorem store_invariant w :
  reachable w →
  (∀ b t s, slice_of w b t = Some s →
     0 < len s ≤ cap s ∧
     ∃ arr, arrays w !! ptr s = Some arr ∧ length arr = cap s) ∧
  (∀ b1 t1 s1 b2 t2 s2,
     slice_of w b1 t1 = Some s1 → slice_of w b2 t2 = Some s2 →
     (b1, t1) ≠ (b2, t2) → ptr s1 ≠ ptr s2) ∧
  (∀ d, defaultBus w = Some d → is_Some (buses w !! d)).
Proof.
  intros Hreach. destruct (reachable_wf w Hreach) as [Hslice Hsep Hdef].
  split_and!.
  - exact Hslice.
  - intros b1 t1 s1 b2 t2 s2 Hs1 Hs2 Hne Hp.
    destruct (Hsep _ _ _ _ _ _ Hs1 Hs2 Hp). congruence.
  - intros d Hd. apply lookup_lt_is_Some_2. by apply Hdef.
Qed.

(** X2. On an existing bus Subscribe always returns: it puts the handler
    at the end of the topic's list, after the handlers already there and
    without reordering them, also when the same handler is there already,
    and it changes neither the cells nor the goroutines nor the default
    bus. *)
Theorem subscribe_appends w b bs t h :
  reachable w → buses w !! b = Some bs →
  ∃ u w', Subscribe b t h w = Ok u w' ∧
          handlers w' b t = handlers w b t ++ [h] ∧
          (∀ h', occ h' (handlers w' b t) =
                 occ h' (handlers w b t) + (if same h' h then 1 else 0)) ∧
          is_Some (slice_of w' b t) ∧
          cells w' = cells w ∧ spawned w' = spawned w ∧
          defaultBus w' = defaultBus w ∧
          length (buses w') = length (buses w).
Proof.
  intros Hreach Hb. pose proof (reachable_wf w Hreach) as Hwf.
  destruct (Subscribe_ok w b bs t h Hwf Hb) as (w' & Hs & Hwf' & Hh & Hfr).
  destruct Hfr as (_ & Hlen & Hd & Hc & Hsp & _).
  exists (Unsubscribe b t h), w'. split_and!; try done.
  - intros h'. rewrite Hh, occ_app, occ_cons. change (occ h' []) with 0.
    destruct (same h' h); lia.
  - apply wf_present; [done|]. rewrite Hh. by destruct (handlers w b t).
Qed.

(** X3. For a handler that [==] can compare (a pointer or nil),
    Unsubscribe on an existing bus never panics.  Either no element of the
    topic's list equals the handler, and it returns false and leaves the
    state as it is; or it returns true, having removed the first element
    equal to the handler, and only that one: the other elements keep their
    order, the list is one shorter, the key is deleted if the list became
    empty, and every other topic is as before. *)
Theorem unsubscribe_removes_first w b bs t h :
  reachable w → buses w !! b = Some bs → comparable h →
  (Forall (λ h2, iface_eq h2 h = Some false) (handlers w b t) ∧
   Unsubscribe b t h w = Ok false w) ∨
  (∃ i h2 w',
     handlers w b t !! i = Some h2 ∧ iface_eq h2 h = Some true ∧
     Forall (λ h', iface_eq h' h = Some false) (take i (handlers w b t)) ∧
     Unsubscribe b t h w = Ok true w' ∧
     handlers w' b t = take i (handlers w b t) ++ drop (S i) (handlers w b t) ∧
     S (length (handlers w' b t)) = length (handlers w b t) ∧
     S (occ h (handlers w' b t)) = occ h (handlers w b t) ∧
     (handlers w' b t = [] → slice_of w' b t = None) ∧
     (∀ b2 t2, (b2, t2) ≠ (b, t) → handlers w' b2 t2 = handlers w b2 t2)).
Proof.
  intros Hreach Hb Hc. pose proof (reachable_wf w Hreach) as Hwf.
  destruct (Unsubscribe_comparable w b bs t h Hwf Hb Hc)
    as [[Hall Hu]|(i & h2 & w' & Hi & Heq & Hbefore & Hu & Hh & Hnil & Hfr)].
  - by left.
  - right. exists i, h2, w'. split_and!; try done.
    + by rewrite Hh, delete_take_drop.
    + rewrite Hh, length_delete; [|by eauto].
      apply lookup_lt_Some in Hi. lia.
    + rewrite Hh. by eapply occ_delete.
    + intros b2 t2 Hne. destruct Hfr as (Hfr & _). by destruct (Hfr b2 t2 Hne).
Qed.

Lemma scan_func f a :
  (scan (HFunc f) a 0 = NotFound ∧ ∀ g, HFunc g ∉ a) ∨
  (scan (HFunc f) a 0 = Uncomparable ∧ ∃ g, HFunc g ∈ a).
Proof.
  induction a as [|h2 a IH]; simpl.
  - left. split; [done|]. intros g. apply not_elem_of_nil.
  - rewrite scan_shift. destruct h2 as [|p|g]; simpl.
    + destruct IH as [[-> Hno]|[-> [g Hg]]].
      * left. split; [done|]. intros g. rewrite not_elem_of_cons. by split.
      * right. split; [done|]. exists g. by right.
    + destruct IH as [[-> Hno]|[-> [g Hg]]].
      * left. split; [done|]. intros g. rewrite not_elem_of_cons. by split.
      * right. split; [done|]. exists g. by right.
    + right. split; [done|]. exists g. by left.
Qed.

(** X4. A HandlerFunc value passed to Unsubscribe is never found:
    whenever the call returns, it returns false and has changed nothing,
    so a HandlerFunc value that was subscribed directly cannot be
    unsubscribed.  On an existing bus the call returns false when the
    topic's list holds no HandlerFunc value and panics when it holds
    one. *)
Theorem unsubscribe_func_value_never_found w b bs t f :
  buses w !! b = Some bs →
  (∀ r w', Unsubscribe b t (HFunc f) w = Ok r w' → r = false ∧ w' = w) ∧
  ((∀ g, HFunc g ∉ handlers w b t) → Unsubscribe b t (HFunc f) w = Ok false w) ∧
  (∀ g, HFunc g ∈ handlers w b t → Unsubscribe b t (HFunc f) w = Panic).
Proof.
  intros Hb.
  destruct (scan_func f (handlers w b t)) as [[Hscan Hno]|[Hscan [g0 Hg0]]].
  - pose proof (Unsubscribe_notfound w b bs t _ Hb Hscan) as Hu.
    split_and!.
    + intros r w'. rewrite Hu. by intros [= <- <-].
    + done.
    + intros g Hin. by destruct (Hno g).
  - pose proof (Unsubscribe_uncomparable w b bs t _ Hb Hscan) as Hu.
    split_and!.
    + intros r w'. by rewrite Hu.
    + intros Hnone. by destruct (Hnone g0).
    + done.
Qed.

Lemma occ_zero_inv h l :
  comparable h → occ h l = 0 → Forall (λ h2, iface_eq h2 h = Some false) l.
Proof.
  intros Hc Hocc. pose proof (scan_occ h l) as Hso.
  destruct (scan h l 0) eqn:Hscan; [lia| |done]. by apply scan_NotFound.
Qed.

Lemma Subscribe_Unsubscribe_roundtrip w b bs t h u w1 :
  wf w → buses w !! b = Some bs → comparable h →
  occ h (handlers w b t) = 0 →
  Subscribe b t h w = Ok u w1 →
  ∃ w2, u = Unsubscribe b t h ∧ Unsubscribe b t h w1 = Ok true w2 ∧ wf w2 ∧
        (∀ b2 t2, handlers w2 b2 t2 = handlers w b2 t2) ∧
        defaultBus w1 = defaultBus w ∧ defaultBus w2 = defaultBus w ∧
        length (buses w2) = length (buses w).
Proof.
  intros Hwf Hb Hc Hocc Hs.
  destruct (Subscribe_inv w b t h u w1 Hwf Hs) as (-> & Hwf1 & Hh1 & Hfr1).
  destruct (lookup_lt_is_Some_2 (buses w1) b) as [bs1 Hb1].
  { destruct Hfr1 as (_ & -> & _). by eapply lookup_lt_Some. }
  assert (Hself : iface_eq h h = Some true).
  { destruct h as [|p|f]; simpl; [done| |done]. by rewrite bool_decide_eq_true_2. }
  pose proof (occ_zero_inv h _ Hc Hocc) as Hbefore.
  assert (Hscan : scan h (handlers w1 b t) 0 = Found (length (handlers w b t))).
  { rewrite Hh1. clear -Hbefore Hself.
    induction Hbefore as [|h2 l Hh2 _ IH]; simpl.
    - by rewrite Hself.
    - by rewrite Hh2, scan_shift, IH. }
  destruct (Unsubscribe_found w1 b bs1 t h _ Hwf1 Hb1 Hscan)
    as (w2 & Hu & Hwf2 & Hh2 & Hfr2).
  exists w2. split_and!; try done.
  - intros b2 t2. destruct (decide ((b2, t2) = (b, t))) as [[= -> ->]|Hne].
    + rewrite Hh2, Hh1, delete_take_drop.
      rewrite take_app_length, drop_ge; [|rewrite length_app; simpl; lia].
      by rewrite app_nil_r.
    + destruct Hfr1 as (Hfr1 & _), Hfr2 as (Hfr2 & _).
      destruct (Hfr1 b2 t2 Hne) as [_ <-]. by destruct (Hfr2 b2 t2 Hne).
  - by destruct Hfr1 as (_ & _ & -> & _).
  - destruct Hfr1 as (_ & _ & <- & _). by destruct Hfr2 as (_ & _ & -> & _).
  - destruct Hfr1 as (_ & <- & _). by destruct Hfr2 as (_ & -> & _).
Qed.

(** X5. Subscribing a comparable handler that the topic does not hold
    yet and then invoking the returned capability is a round trip: the
    capability returns true, every handler list on every bus is as before
    the Subscribe, and so is the presence of every topic key. *)
Theorem subscribe_then_capability w b bs t h u w1 :
  reachable w → buses w !! b = Some bs → comparable h →
  occ h (handlers w b t) = 0 →
  Subscribe b t h w = Ok u w1 →
  ∃ w2, u w1 = Ok true w2 ∧
        (∀ b2 t2, handlers w2 b2 t2 = handlers w b2 t2) ∧
        (∀ b2 t2, is_Some (slice_of w2 b2 t2) ↔ is_Some (slice_of w b2 t2)).
Proof.
  intros Hreach Hb Hc Hocc Hs. pose proof (reachable_wf w Hreach) as Hwf.
  destruct (Subscribe_Unsubscribe_roundtrip w b bs t h u w1 Hwf Hb Hc Hocc Hs)
    as (w2 & -> & Hu & Hwf2 & Hall & _).
  exists w2. split_and!; [done..|].
  intros b2 t2. by rewrite !wf_present, Hall.
Qed.

(** X6. Unsubscribe removes in place.  When it returns true on a topic
    whose slice was [hs], it has allocated nothing and written to no array
    but that of [hs]; the topic's new slice is [hs] shortened by one on the
    same array with the same capacity (or the key is gone if [hs] had one
    element); and through the old header [hs] one now reads the new list
    followed by the old last element. *)
Theorem unsubscribe_in_place w b bs t h hs w' :
  reachable w → buses w !! b = Some bs → topics bs !! t = Some hs →
  Unsubscribe b t h w = Ok true w' →
  length (arrays w') = length (arrays w) ∧
  (∀ p, p ≠ ptr hs → arrays w' !! p = arrays w !! p) ∧
  slice_of w' b t =
    (if decide (len hs = 1) then None
     else Some {| ptr := ptr hs; len := len hs - 1; cap := cap hs |}) ∧
  elems (arrays w') hs =
    handlers w' b t ++ drop (len hs - 1) (handlers w b t).
Proof.
  intros Hreach Hb Ht Hu. pose proof (reachable_wf w Hreach) as Hwf.
  destruct (Unsubscribe_true_inv w b bs t h w' Hwf Hb Hu)
    as (i & Hscan & _ & Hh' & _).
  destruct (Unsubscribe_shifts_array w b bs t h i hs Hwf Hb Ht Hscan)
    as (w'' & Hu' & Hview).
  assert (w'' = w') as -> by congruence. rewrite Hh'.
  split_and!; [| | |done].
  all: clear Hu' Hview Hh'.
  all: assert (Hs : slice_of w b t = Some hs) by (apply slice_of_Some; eauto).
  all: pose proof (handlers_length _ _ _ _ Hwf Hs) as Hlen.
  all: destruct (wf_slice _ Hwf _ _ _ Hs) as [Hl0 _].
  all: destruct (scan_Found _ _ _ Hscan) as (h2 & Hi & _).
  all: apply lookup_lt_Some in Hi; rewrite Hlen in Hi.
  all: unfold Unsubscribe in Hu.
  all: rewrite Hb, <-(handlers_elems _ _ _ _ Hb), Hscan, Ht in Hu; simpl in Hu.
  all: unfold append in Hu; simpl in Hu.
  all: rewrite length_drop, Hlen, decide_True in Hu by lia.
  all: injection Hu as <-.
  - simpl. by rewrite length_alter.
  - intros p Hp. simpl. by rewrite list_lookup_alter_ne.
  - unfold slice_of. simpl.
    rewrite list_lookup_insert_eq by (by eapply lookup_lt_Some). simpl.
    case_decide as Hz; simpl in Hz.
    + rewrite lookup_delete_eq. rewrite decide_True by lia. done.
    + rewrite lookup_insert_eq. rewrite decide_False by lia.
      do 2 f_equal. lia.
Qed.

(** X7. Whatever the growth policy of [append]: when the first handler
    [h0] of a list of two or more removes itself from the topic as it is
    invoked and the other handlers leave the bus alone, a synchronous
    Publish returns the length of the list it read, having invoked [h0],
    then the handlers from the third on, then the last handler of the list
    once more; the list afterwards is the old one without [h0].  So with
    three or more handlers the second one is skipped and the last one is
    invoked twice, and with exactly two handlers each is invoked once. *)
Theorem publish_after_self_removal w b bs t v flags fuel hs h0 rest :
  reachable w → buses w !! b = Some bs → topics bs !! t = Some hs →
  Z.land (or_flags flags) Async = 0%Z →
  handlers w b t = h0 :: rest → rest ≠ [] →
  iface_eq h0 h0 = Some true →
  (∀ w', Unsubscribe b t h0 w = Ok true w' →
     On (run fuel) h0 b t v w = Ok () w') →
  (∀ h w', h ∈ rest → Unsubscribe b t h0 w = Ok true w' →
     On (run fuel) h b t v w' = Ok () w') →
  ∃ l w', Publish fuel b t v flags w =
            Ok {| count := S (length rest); err := None; invoked := l |} w' ∧
          handlers w' b t = rest ∧
          l = h0 :: drop 1 rest ++ drop (length rest - 1) rest ∧
          (∀ h1, rest = [h1] → l = [h0; h1]) ∧
          (∀ h1 mid hl, rest = h1 :: mid ++ [hl] → l = h0 :: mid ++ [hl; hl]).
Proof.
  intros Hreach Hb Ht Hsync Hh Hrest Hself Hquit Hidle.
  destruct (Publish_skips_after_removal (run fuel) w b bs t v flags hs h0 rest
              (reachable_wf w Hreach) Hb Ht Hsync Hh Hrest Hself Hquit Hidle)
    as (w' & _ & Hh' & Hp).
  eexists _, w'. split_and!; [done..| |].
  - by intros h1 ->.
  - intros h1 mid hl ->. simpl. rewrite Nat.sub_0_r, length_app, Nat.add_1_r.
    simpl. by rewrite drop_0, drop_app_length, <-app_assoc.
Qed.

(** *** Handlers that only subscribe *)

Lemma pinned_set_cells n c0 b t hs L f w :
  pinned n c0 b t hs L w → pinned n c0 b t hs L (set_cells (cells w ++ [f]) w).
Proof.
  intros [Hwf Hn Hc He Hl Hp]. split; try done.
  - by apply wf_set_cells.
  - simpl. by apply prefix_app_r.
Qed.

Lemma Subscribe_pinned n c0 b t hs L b' t' h' w u w' :
  pinned n c0 b t hs L w → Subscribe b' t' h' w = Ok u w' →
  pinned n c0 b t hs L w'.
Proof.
  intros [Hwf Hn Hc (arr & Ha & Htake) Hl Hp] Hs.
  destruct (Subscribe_inv w b' t' h' u w' Hwf Hs) as (_ & Hwf' & Hh' & Hfr).
  destruct Hfr as (Hfr & Hlen & _ & Hcells & _).
  assert (Hpre : L `prefix_of` handlers w' b t).
  { destruct (decide ((b, t) = (b', t'))) as [[= -> ->]|Hne].
    - rewrite Hh'. by apply prefix_app_r.
    - by destruct (Hfr b t Hne) as [_ ->]. }
  pose proof (lookup_lt_Some _ _ _ Ha) as Hlt.
  unfold Subscribe in Hs. destruct (buses w !! b') as [bs'|] eqn:Hb'; [|done].
  destruct (topics bs' !! t') as [s0|] eqn:Ht'.
  - assert (Hs0 : slice_of w b' t' = Some s0) by (apply slice_of_Some; eauto).
    destruct (wf_slice _ Hwf _ _ _ Hs0) as [Hl0 (arr0 & Ha0 & Hc0)].
    destruct (append s0 [h'] (arrays w)) as [s m] eqn:Happ.
    eapply append_spec in Happ
      as (Hls & Hlc & (arr' & Ha' & Hc') & Hel & Hmono & Hframe & Hptr);
      [|exact Ha0|done|lia].
    injection Hs as _ <-. simpl in Hls.
    split; try done.
    + simpl. by rewrite length_insert.
    + simpl. destruct (decide (ptr hs = ptr s)) as [Heq|Hne].
      * destruct Hptr as [Hp0|Hp0]; [|lia].
        assert (arr0 = arr) as -> by congruence.
        pose proof (Hl _ _ _ Hs0 (eq_sym (eq_trans Heq Hp0))) as Hle.
        exists arr'. split; [by rewrite Heq|].
        unfold elems in Hel. rewrite Ha' in Hel. simpl in Hel.
        rewrite <-Htake.
        assert (take (len hs) arr' = take (len hs) (take (len s) arr')) as ->
          by (rewrite take_take; f_equal; lia).
        rewrite Hel, take_app_le by (rewrite length_take; lia).
        rewrite take_take. f_equal. lia.
      * exists arr. split; [|done]. by rewrite Hframe.
    + intros b2 t2 s2. fold (upd b' (<[t':=s]> (topics bs')) m w).
      rewrite (slice_of_upd _ _ bs') by done.
      case_decide as Hb2; [subst b2|by apply Hl].
      destruct (decide (t2 = t')) as [->|Hne].
      * rewrite lookup_insert_eq. intros [= <-] Hps.
        destruct Hptr as [Hp0|Hp0]; [|lia].
        pose proof (Hl _ _ _ Hs0 (eq_trans (eq_sym Hp0) Hps)). lia.
      * rewrite lookup_insert_ne by done. intros Hs2. apply (Hl b' t2).
        apply slice_of_Some. eauto.
  - injection Hs as _ <-. split; try done.
    + simpl. by rewrite length_insert.
    + simpl. exists arr. split; [|done]. by rewrite lookup_app_l.
    + intros b2 t2 s2.
      fold (upd b' (<[t':={| ptr := length (arrays w); len := 1; cap := 1 |}]>
                      (topics bs')) (arrays w ++ [[h']]) w).
      rewrite (slice_of_upd _ _ bs') by done.
      case_decide as Hb2; [subst b2|by apply Hl].
      destruct (decide (t2 = t')) as [->|Hne].
      * rewrite lookup_insert_eq. intros [= <-]. simpl. lia.
      * rewrite lookup_insert_ne by done. intros Hs2. apply (Hl b' t2).
        apply slice_of_Some. eauto.
Qed.

Lemma exec_adds_only publish n c0 b t hs L p w :
  pinned n c0 b t hs L w → adds_only n p →
  ∃ w', exec publish p w = Ok () w' ∧ pinned n c0 b t hs L w'.
Proof.
  revert w.
  induction p as [|b' t' h' k IH|b' t' f _ k IH|b' t' h' k IH|b' t' v' fl k IH|b' v' k IH];
    intros w Hpin Hadd; simpl in *; try done.
  - by exists w.
  - destruct Hadd as [Hb' Hk].
    destruct (lookup_lt_is_Some_2 (buses w) b') as [bs' Hbs'].
    { pose proof (pin_buses _ _ _ _ _ _ _ Hpin). lia. }
    destruct (Subscribe_ok w b' bs' t' h' (pin_wf _ _ _ _ _ _ _ Hpin) Hbs')
      as (w1 & Hs & _).
    rewrite Hs. simpl. apply IH; [|done]. by eapply Subscribe_pinned.
  - destruct Hadd as [Hb' Hk].
    destruct (lookup_lt_is_Some_2 (buses w) b') as [bs' Hbs'].
    { pose proof (pin_buses _ _ _ _ _ _ _ Hpin). lia. }
    destruct (SubscribeFunc_ok w b' bs' t' f (pin_wf _ _ _ _ _ _ _ Hpin) Hbs')
      as (w1 & Hs & _).
    rewrite Hs. simpl. apply IH; [|done].
    unfold SubscribeFunc in Hs.
    eapply Subscribe_pinned; [|exact Hs]. by apply pinned_set_cells.
Qed.

(** X8. Handlers added while a synchronous Publish runs are not invoked
    by it.  If every handler of the topic has a function and that function,
    called with the bus, the topic and the value, does nothing but
    subscribe handlers (to any topics of existing buses, this one
    included), then Publish returns, has invoked exactly the handlers that
    were subscribed when it started, once each and in subscription order,
    and returns their number; those handlers still head the topic's list
    afterwards. *)
Theorem publish_ignores_additions w b bs t hs v flags fuel :
  reachable w → buses w !! b = Some bs → topics bs !! t = Some hs →
  Z.land (or_flags flags) Async = 0%Z →
  (∀ h, h ∈ handlers w b t →
     ∃ f, handler_func w h = Some f ∧ adds_only (length (buses w)) (f b t v)) →
  ∃ w', Publish (S fuel) b t v flags w =
          Ok {| count := length (handlers w b t); err := None;
                invoked := handlers w b t |} w' ∧
        handlers w b t `prefix_of` handlers w' b t.
Proof.
  intros Hreach Hb Ht Hsync Hfuncs. pose proof (reachable_wf w Hreach) as Hwf.
  assert (Hs : slice_of w b t = Some hs) by (apply slice_of_Some; eauto).
  destruct (wf_slice _ Hwf _ _ _ Hs) as [Hl (arr & Ha & Hc)].
  assert (Hh : handlers w b t = take (len hs) arr).
  { unfold handlers. rewrite Hs. unfold elems. by rewrite Ha. }
  set (Inv := pinned (length (buses w)) (cells w) b t hs (handlers w b t)).
  assert (Hinv : Inv w).
  { split; try done. - by exists arr.
    - intros b2 t2 s2 Hs2 Hp.
      destruct (wf_sep _ Hwf _ _ _ _ _ _ Hs2 Hs Hp) as [-> ->].
      assert (s2 = hs) as -> by congruence. done. }
  destruct (Publish_invokes_pinned (run (S fuel)) w b bs t v flags Inv
              Hwf Hb Hsync Hinv) as (w' & Hp & Hinv').
  - intros w1 [_ _ _ (arr1 & Ha1 & Ht1) _ _]. rewrite Ht. simpl.
    unfold elems. by rewrite Ha1.
  - intros h w1 Hin Hpin. destruct (Hfuncs h Hin) as (f & Hf & Hadd).
    rewrite On_handler_func.
    assert (Hf1 : handler_func w1 h = Some f).
    { destruct h as [|p|g]; simpl in *; [done| |done].
      by eapply prefix_lookup_Some; [|apply (pin_cells _ _ _ _ _ _ _ Hpin)]. }
    rewrite Hf1. simpl. by apply exec_adds_only.
  - exists w'. split; [done|]. apply (pin_prefix _ _ _ _ _ _ _ Hinv').
Qed.

(** *** The default bus *)

#[global] Instance keeps_default_refl : Reflexive keeps_default.
Proof. by intros w d. Qed.

#[global] Instance keeps_default_trans : Transitive keeps_default.
Proof. intros w1 w2 w3 H12 H23 d Hd. by apply H23, H12. Qed.

Lemma run_keeps_default fuel p : respects keeps_default (run fuel p).
Proof.
  apply run_respects; try apply _.
  - intros b t h w u w' Hs d Hd. unfold Subscribe in Hs.
    destruct (buses w !! b) as [bs|]; [|done].
    destruct (match topics bs !! t with Some _ => _ | None => _ end) as [s m].
    by injection Hs as _ <-.
  - intros b t h w r w' Hu d Hd. unfold Unsubscribe in Hu.
    destruct (buses w !! b) as [bs|]; [|done].
    destruct (scan _ _ _); [|by injection Hu as _ <-|done].
    destruct (append _ _ _) as [s m]. by injection Hu as _ <-.
  - by intros c w d Hd.
  - by intros g w d Hd.
Qed.

Lemma step_keeps_default w w' : step w w' → keeps_default w w'.
Proof.
  intros Hstep. destruct Hstep.
  - by intros d Hd.
  - by intros d Hd.
  - intros d Hd. unfold Pkg.getDefaultBus. by rewrite Hd.
  - match goal with Hs : Subscribe ?b ?t ?h _ = _ |- _ =>
      apply (run_keeps_default 1 (CallSubscribe b t h Ret) _ ()); simpl;
      by rewrite Hs end.
  - match goal with Hs : SubscribeFunc ?b ?t ?f _ = _ |- _ =>
      apply (run_keeps_default 1 (CallSubscribeFunc b t f (λ _, Ret)) _ ()); simpl;
      by rewrite Hs end.
  - match goal with Hs : Unsubscribe ?b ?t ?h _ = _ |- _ =>
      apply (run_keeps_default 1 (CallUnsubscribe b t h (λ _, Ret)) _ ()); simpl;
      by rewrite Hs end.
  - match goal with Hs : Publish ?n ?b ?t ?v ?fl _ = _ |- _ =>
      apply (run_keeps_default (S n) (CallPublish b t v fl (λ _, Ret)) _ ()); simpl;
      unfold Publish in Hs; by rewrite Hs end.
  - match goal with Hs : PublishAll ?b ?v _ = _ |- _ =>
      apply (run_keeps_default 1 (CallPublishAll b v (λ _, Ret)) _ ()); simpl;
      by rewrite Hs end.
  - by eapply run_keeps_default.
Qed.

Lemma steps_keeps_default w w' : steps w w' → keeps_default w w'.
Proof. induction 1; [done|]. etrans; [by apply step_keeps_default|done]. Qed.

Lemma getDefaultBus_Some w :
  defaultBus (Pkg.getDefaultBus w).2 = Some (Pkg.getDefaultBus w).1.
Proof. unfold Pkg.getDefaultBus. by destruct (defaultBus w) eqn:Hd. Qed.

(** X9. There is one default bus.  After a first getDefaultBus, whatever
    operations follow (on any bus, by clients or by handlers), every later
    getDefaultBus returns the same bus and changes nothing; that bus still
    exists; and no later NewBus returns it.  When the first call had to
    create the bus, the bus starts without handlers. *)
Theorem default_bus_is_one w w' :
  reachable w → steps (Pkg.getDefaultBus w).2 w' →
  Pkg.getDefaultBus w' = ((Pkg.getDefaultBus w).1, w') ∧
  is_Some (buses w' !! (Pkg.getDefaultBus w).1) ∧
  (NewBus w').1 ≠ (Pkg.getDefaultBus w).1 ∧
  (defaultBus w = None →
     ∀ t, handlers (Pkg.getDefaultBus w).2 (Pkg.getDefaultBus w).1 t = []).
Proof.
  intros Hreach Hsteps.
  pose proof (wf_getDefaultBus w (reachable_wf w Hreach)) as Hwf0.
  pose proof (steps_wf _ _ Hwf0 Hsteps) as Hwf'.
  pose proof (steps_keeps_default _ _ Hsteps _ (getDefaultBus_Some w)) as Hd'.
  pose proof (wf_default _ Hwf' _ Hd') as Hlt.
  split_and!.
  - unfold Pkg.getDefaultBus at 1. by rewrite Hd'.
  - by apply lookup_lt_is_Some_2.
  - simpl. lia.
  - intros Hnone t. unfold Pkg.getDefaultBus. rewrite Hnone. simpl.
    unfold handlers, slice_of. simpl.
    by rewrite lookup_app_r, Nat.sub_diag.
Qed.


(** X14. The package-level Unsubscribe, though it returns nothing, does
    remove the handler: after the package-level Subscribe of a comparable
    handler that the default bus did not hold on the topic, Unsubscribe
    with the same topic and handler returns and puts every handler list
    back as it was; called once more it returns again and changes
    nothing. *)
Theorem package_subscribe_then_unsubscribe w t h u w1 :
  reachable w → comparable h →
  occ h (handlers (Pkg.getDefaultBus w).2 (Pkg.getDefaultBus w).1 t) = 0 →
  Pkg.Subscribe t h w = Ok u w1 →
  ∃ w2, Pkg.Unsubscribe t h w1 = Ok () w2 ∧
        (∀ b2 t2, handlers w2 b2 t2 = handlers (Pkg.getDefaultBus w).2 b2 t2) ∧
        Pkg.Unsubscribe t h w2 = Ok () w2.
Proof.
  intros Hreach Hc Hocc Hs.
  pose proof (wf_getDefaultBus w (reachable_wf w Hreach)) as Hwf0.
  pose proof (getDefaultBus_Some w) as Hd0.
  unfold Pkg.Subscribe in Hs.
  destruct (Pkg.getDefaultBus w) as [d w0]. simpl in *.
  destruct (lookup_lt_is_Some_2 (buses w0) d) as [bs0 Hb0].
  { by apply (wf_default _ Hwf0). }
  destruct (Subscribe_Unsubscribe_roundtrip w0 d bs0 t h u w1 Hwf0 Hb0 Hc Hocc Hs)
    as (w2 & _ & Hu & Hwf2 & Hall & Hd1 & Hd2 & Hlen).
  assert (Hget1 : Pkg.getDefaultBus w1 = (d, w1)).
  { unfold Pkg.getDefaultBus. by rewrite Hd1, Hd0. }
  assert (Hget2 : Pkg.getDefaultBus w2 = (d, w2)).
  { unfold Pkg.getDefaultBus. by rewrite Hd2, Hd0. }
  destruct (lookup_lt_is_Some_2 (buses w2) d) as [bs2 Hb2].
  { rewrite Hlen. by eapply lookup_lt_Some. }
  exists w2. unfold Pkg.Unsubscribe. rewrite Hget1, Hget2, Hu. simpl.
  split_and!; [done..|].
  rewrite (Unsubscribe_notfound w2 d bs2 t h Hb2); [done|].
  apply scan_NotFound, occ_zero_inv; [done|]. by rewrite Hall.
Qed.

(** *** One handler *)

(** X11. On a topic with exactly one handler a synchronous Publish is
    one call of the handler's function with the bus, the topic and the
    value: it returns count 1 if the function returns, in the state the
    function left, and panics if the function panics, or if the handler is
    nil. *)
Theorem publish_single_handler w b t h v flags fuel :
  reachable w → handlers w b t = [h] →
  Z.land (or_flags flags) Async = 0%Z →
  Publish fuel b t v flags w =
    match handler_func w h with
    | Some f =>
        bind (run fuel (f b t v) w) (λ _ w',
          Ok {| count := 1; err := None; invoked := [h] |} w')
    | None => Panic
    end.
Proof.
  intros Hreach Hh Hsync. pose proof (reachable_wf w Hreach) as Hwf.
  destruct (slice_of w b t) as [hs|] eqn:Hs; last first.
  { unfold handlers in Hh. by rewrite Hs in Hh. }
  apply slice_of_Some in Hs as (bs & Hb & Ht).
  pose proof (snapshot_length w b bs t Hwf Hb) as Hlen.
  pose proof (handlers_elems w b bs t Hb) as He.
  rewrite Hh in Hlen, He. rewrite Ht in Hlen, He. simpl in Hlen, He.
  unfold Publish, Publish_with.
  rewrite Hb, decide_False by (by rewrite Hsync; intros []).
  rewrite Ht. simpl. rewrite Hlen. simpl.
  unfold elems in He. rewrite Hlen in He.
  destruct (arrays w !! ptr hs) as [[|a0 arr]|]; simpl in He; try done.
  injection He as Ha0. subst a0. simpl. rewrite On_handler_func.
  destruct (handler_func w h) as [f|]; [|done].
  by destruct (run fuel (f b t v) w).
Qed.

(** *** The flags *)

Lemma land_Async_odd x : Z.land x Async ≠ 0%Z ↔ Z.odd x = true.
Proof.
  change Async with (Z.ones 1). rewrite Z.land_ones by done.
  change (2 ^ 1)%Z with 2%Z. rewrite <-Z.bit0_mod, <-Z.bit0_odd.
  by destruct (Z.testbit x 0).
Qed.

Lemma odd_or_flags flags acc :
  Z.odd (foldl Z.lor acc flags) = Z.odd acc || existsb Z.odd flags.
Proof.
  revert acc. induction flags as [|f flags IH]; intros acc; simpl.
  - by rewrite orb_false_r.
  - rewrite IH, <-!Z.bit0_odd, Z.lor_spec. by rewrite orb_assoc.
Qed.


(** *** NewBus *)

(** X13. NewBus returns a bus that did not exist before and is not the
    default bus; the new bus has no handler on any topic, every handler
    list of every other bus is as before, and the state stays reachable. *)
Theorem new_bus_is_fresh w :
  reachable w →
  buses w !! (NewBus w).1 = None ∧
  is_Some (buses (NewBus w).2 !! (NewBus w).1) ∧
  defaultBus (NewBus w).2 ≠ Some (NewBus w).1 ∧
  (∀ t, handlers (NewBus w).2 (NewBus w).1 t = []) ∧
  (∀ b t, handlers (NewBus w).2 b t = handlers w b t) ∧
  reachable (NewBus w).2.
Proof.
  intros Hreach. pose proof (reachable_wf w Hreach) as Hwf.
  destruct (NewBus_spec w) as (Hb & Hnew & _).
  assert (Hall : ∀ b t, handlers (NewBus w).2 b t = handlers w b t).
  { intros b t. unfold handlers. by rewrite slice_of_NewBus. }
  split_and!.
  - apply lookup_ge_None_2. simpl. lia.
  - by rewrite Hnew.
  - intros Hd. apply (wf_default _ Hwf) in Hd. simpl in Hd. lia.
  - intros t. rewrite Hall. unfold handlers, slice_of.
    rewrite (lookup_ge_None_2 (buses w)); [done|simpl; lia].
  - done.
  - eapply reach_step; [done|apply step_NewBus].
Qed.

End further.

(** *** The further properties on the concrete runs *)

Lemma reachable_w_join : reachable w_join.
Proof.
  apply (reach_step (ok (SubscribeFunc 0 T joiner w_bus))).
  - apply (reach_step w_bus); [apply reachable_w_bus|].
    by eapply (step_SubscribeFunc 0 T joiner).
  - by eapply (step_SubscribeFunc 0 T idle).
Qed.

Lemma store_invariant_witness :
  reachable w_sub2 ∧
  slice_of w_sub2 0 T = Some {| ptr := 0; len := 1; cap := 1 |} ∧
  slice_of w_sub2 0 T2 = Some {| ptr := 1; len := 1; cap := 1 |} ∧
  (0, T) ≠ (0, T2) ∧
  ptr {| ptr := 0; len := 1; cap := 1 |} ≠ ptr {| ptr := 1; len := 1; cap := 1 |}.
Proof.
  split; [exact reachable_w_sub2|]. do 2 (split; [reflexivity|]).
  split; [discriminate|].
  destruct (store_invariant w_sub2 reachable_w_sub2) as (_ & Hsep & _).
  apply (Hsep 0 T _ 0 T2 _); [reflexivity|reflexivity|discriminate].
Defined.

Lemma subscribe_appends_witness :
  reachable w_sub ∧ buses w_sub !! 0 = Some (default {| topics := ∅ |} (buses w_sub !! 0)) ∧
  ∃ u w', Subscribe 0 T (HPtr 0) w_sub = Ok u w' ∧
          handlers w' 0 T = [HPtr 0; HPtr 0] ∧
          occ (HPtr 0) (handlers w' 0 T) = 2.
Proof.
  split; [exact reachable_w_sub|]. split; [reflexivity|].
  destruct (subscribe_appends w_sub 0 _ T (HPtr 0) reachable_w_sub eq_refl)
    as (u & w' & Hs & Hh & Hocc & _).
  exists u, w'. split; [exact Hs|]. split; [exact Hh|]. exact (Hocc (HPtr 0)).
Defined.

Lemma unsubscribe_removes_first_witness :
  reachable w_three ∧
  buses w_three !! 0 = Some (default {| topics := ∅ |} (buses w_three !! 0)) ∧
  comparable (HPtr 1) ∧
  ∃ w', Unsubscribe 0 T (HPtr 1) w_three = Ok true w' ∧
        length (handlers w' 0 T) = 2 ∧
        handlers w' 0 T2 = handlers w_three 0 T2.
Proof.
  split; [exact reachable_w_three|]. split; [reflexivity|]. split; [exact I|].
  destruct (unsubscribe_removes_first w_three 0 _ T (HPtr 1)
              reachable_w_three eq_refl I)
    as [[_ Hu]|(i & h2 & w' & _ & _ & _ & Hu & _ & Hlen & _ & _ & Hfr)].
  - vm_compute in Hu. discriminate Hu.
  - exists w'. split; [exact Hu|]. split.
    + change (length (handlers w_three 0 T)) with 3 in Hlen.
      injection Hlen as Hlen. exact Hlen.
    + apply Hfr. discriminate.
Defined.

Lemma unsubscribe_func_value_never_found_witness :
  buses w_func !! 0 = Some (default {| topics := ∅ |} (buses w_func !! 0)) ∧
  HFunc idle ∈ handlers w_func 0 T ∧
  Unsubscribe 0 T (HFunc quit) w_func = Panic.
Proof.
  split; [reflexivity|]. split; [constructor|].
  destruct (unsubscribe_func_value_never_found w_func 0 _ T quit eq_refl)
    as (_ & _ & Hpanic).
  apply (Hpanic idle). constructor.
Defined.

Lemma subscribe_then_capability_witness :
  reachable w_ptr ∧
  buses w_ptr !! 0 = Some (default {| topics := ∅ |} (buses w_ptr !! 0)) ∧
  comparable (HPtr 0) ∧ occ (HPtr 0) (handlers w_ptr 0 T) = 0 ∧
  Subscribe 0 T (HPtr 0) w_ptr = Ok (Unsubscribe 0 T (HPtr 0)) w_sub ∧
  ∃ w2, Unsubscribe 0 T (HPtr 0) w_sub = Ok true w2 ∧
        handlers w2 0 T = handlers w_ptr 0 T.
Proof.
  split; [exact reachable_w_ptr|]. split; [reflexivity|]. split; [exact I|].
  do 2 (split; [reflexivity|]).
  destruct (subscribe_then_capability w_ptr 0 _ T (HPtr 0)
              (Unsubscribe 0 T (HPtr 0)) w_sub
              reachable_w_ptr eq_refl I eq_refl eq_refl) as (w2 & Hu & Hall & _).
  exists w2. split; [exact Hu|exact (Hall 0 T)].
Defined.

Lemma unsubscribe_in_place_witness :
  reachable w_three ∧
  buses w_three !! 0 = Some (default {| topics := ∅ |} (buses w_three !! 0)) ∧
  topics (default {| topics := ∅ |} (buses w_three !! 0)) !! T =
    Some {| ptr := 2; len := 3; cap := 4 |} ∧
  Unsubscribe 0 T (HPtr 0) w_three =
    Ok true (ok (Unsubscribe 0 T (HPtr 0) w_three)) ∧
  elems (arrays (ok (Unsubscribe 0 T (HPtr 0) w_three)))
        {| ptr := 2; len := 3; cap := 4 |} = [HPtr 1; HPtr 2; HPtr 2] ∧
  slice_of (ok (Unsubscribe 0 T (HPtr 0) w_three)) 0 T =
    Some {| ptr := 2; len := 2; cap := 4 |}.
Proof.
  split; [exact reachable_w_three|]. do 3 (split; [reflexivity|]).
  destruct (unsubscribe_in_place w_three 0 _ T (HPtr 0)
              {| ptr := 2; len := 3; cap := 4 |}
              (ok (Unsubscribe 0 T (HPtr 0) w_three))
              reachable_w_three eq_refl eq_refl eq_refl)
    as (_ & _ & Hslice & Hview).
  split; [exact Hview|exact Hslice].
Defined.

Lemma publish_after_self_removal_witness :
  reachable w_three ∧
  buses w_three !! 0 = Some (default {| topics := ∅ |} (buses w_three !! 0)) ∧
  topics (default {| topics := ∅ |} (buses w_three !! 0)) !! T =
    Some {| ptr := 2; len := 3; cap := 4 |} ∧
  Z.land (or_flags []) Async = 0%Z ∧
  handlers w_three 0 T = HPtr 0 :: [HPtr 1; HPtr 2] ∧
  [HPtr 1; HPtr 2] ≠ [] ∧
  iface_eq (HPtr 0) (HPtr 0) = Some true ∧
  (∀ w', Unsubscribe 0 T (HPtr 0) w_three = Ok true w' →
     On (run 1) (HPtr 0) 0 T V w_three = Ok () w') ∧
  (∀ h w', h ∈ [HPtr 1; HPtr 2] → Unsubscribe 0 T (HPtr 0) w_three = Ok true w' →
     On (run 1) h 0 T V w' = Ok () w') ∧
  ∃ l w', Publish 1 0 T V [] w_three =
            Ok {| count := 3; err := None; invoked := l |} w' ∧
          handlers w' 0 T = [HPtr 1; HPtr 2] ∧
          l = [HPtr 0; HPtr 2; HPtr 2].
Proof.
  assert (Hquit : ∀ w', Unsubscribe 0 T (HPtr 0) w_three = Ok true w' →
     On (run 1) (HPtr 0) 0 T V w_three = Ok () w').
  { intros w' Hu.
    change (bind (Unsubscribe 0 T (HPtr 0) w_three) (λ _ w1, Ok () w1) = Ok () w').
    rewrite Hu. reflexivity. }
  assert (Hidle : ∀ h w', h ∈ [HPtr 1; HPtr 2] →
     Unsubscribe 0 T (HPtr 0) w_three = Ok true w' →
     On (run 1) h 0 T V w' = Ok () w').
  { intros h w' Hin Hu.
    assert (Hw : w' = ok (Unsubscribe 0 T (HPtr 0) w_three)) by (rewrite Hu; reflexivity).
    rewrite Hw. clear Hu Hw.
    apply elem_of_cons in Hin as [->|Hin]; [reflexivity|].
    apply elem_of_cons in Hin as [->|Hin]; [reflexivity|].
    by apply elem_of_nil in Hin. }
  split; [exact reachable_w_three|]. do 4 (split; [reflexivity|]).
  split; [discriminate|]. split; [reflexivity|].
  split; [exact Hquit|]. split; [exact Hidle|].
  destruct (publish_after_self_removal w_three 0 _ T V [] 1
              {| ptr := 2; len := 3; cap := 4 |} (HPtr 0) [HPtr 1; HPtr 2]
              reachable_w_three eq_refl eq_refl eq_refl eq_refl
              ltac:(discriminate) eq_refl Hquit Hidle)
    as (l & w' & Hp & Hh & _ & _ & Hthree).
  exists l, w'. split; [exact Hp|]. split; [exact Hh|].
  exact (Hthree (HPtr 1) [] (HPtr 2) eq_refl).
Defined.

Lemma publish_ignores_additions_witness :
  reachable w_join ∧
  buses w_join !! 0 = Some (default {| topics := ∅ |} (buses w_join !! 0)) ∧
  topics (default {| topics := ∅ |} (buses w_join !! 0)) !! T =
    Some {| ptr := 1; len := 2; cap := 2 |} ∧
  Z.land (or_flags []) Async = 0%Z ∧
  (∀ h, h ∈ handlers w_join 0 T →
     ∃ f, handler_func w_join h = Some f ∧
          adds_only (length (buses w_join)) (f 0 T V)) ∧
  ∃ w', Publish 1 0 T V [] w_join =
          Ok {| count := 2; err := None; invoked := [HPtr 0; HPtr 1] |} w' ∧
        [HPtr 0; HPtr 1] `prefix_of` handlers w' 0 T.
Proof.
  assert (Hfuncs : ∀ h, h ∈ handlers w_join 0 T →
     ∃ f, handler_func w_join h = Some f ∧
          adds_only (length (buses w_join)) (f 0 T V)).
  { intros h Hin. change (h ∈ [HPtr 0; HPtr 1]) in Hin.
    apply elem_of_cons in Hin as [->|Hin].
    { exists joiner. split; [reflexivity|].
      change (0 < 1 ∧ ∀ hf : loc, True). split; [lia|done]. }
    apply elem_of_cons in Hin as [->|Hin].
    { exists idle. split; [reflexivity|]. exact I. }
    by apply elem_of_nil in Hin. }
  split; [exact reachable_w_join|]. do 3 (split; [reflexivity|]).
  split; [exact Hfuncs|].
  exact (publish_ignores_additions w_join 0 _ T {| ptr := 1; len := 2; cap := 2 |}
           V [] 0 reachable_w_join eq_refl eq_refl eq_refl Hfuncs).
Defined.

Lemma default_bus_is_one_witness :
  reachable boot ∧
  steps (Pkg.getDefaultBus boot).2 (ok (Pkg.Subscribe T (HPtr 0) boot)) ∧
  Pkg.getDefaultBus (ok (Pkg.Subscribe T (HPtr 0) boot)) =
    (0, ok (Pkg.Subscribe T (HPtr 0) boot)).
Proof.
  assert (Hsteps : steps (Pkg.getDefaultBus boot).2 (ok (Pkg.Subscribe T (HPtr 0) boot))).
  { apply rtc_once. by eapply (step_Subscribe 0 T (HPtr 0)). }
  split; [exact reach_boot|]. split; [exact Hsteps|].
  exact (proj1 (default_bus_is_one boot _ reach_boot Hsteps)).
Defined.


Lemma publish_single_handler_witness :
  reachable w_one ∧ handlers w_one 0 T = [HPtr 0] ∧
  Z.land (or_flags []) Async = 0%Z ∧
  Publish 1 0 T V [] w_one =
    Ok {| count := 1; err := None; invoked := [HPtr 0] |}
       (ok (Unsubscribe 0 T (HPtr 0) w_one)).
Proof.
  split; [exact reachable_w_one|]. do 2 (split; [reflexivity|]).
  exact (publish_single_handler w_one 0 T (HPtr 0) V [] 1
           reachable_w_one eq_refl eq_refl).
Defined.


Lemma new_bus_is_fresh_witness :
  reachable w_one ∧
  buses w_one !! (NewBus w_one).1 = None ∧
  handlers (NewBus w_one).2 (NewBus w_one).1 T = [] ∧
  handlers (NewBus w_one).2 0 T = [HPtr 0].
Proof.
  split; [exact reachable_w_one|].
  destruct (new_bus_is_fresh w_one reachable_w_one) as (Hnone & _ & _ & Hnil & Hall & _).
  split; [exact Hnone|]. split; [exact (Hnil T)|exact (Hall 0 T)].
Defined.

Lemma package_subscribe_then_unsubscribe_witness :
  reachable (new_handler idle boot).2 ∧ comparable (HPtr 0) ∧
  occ (HPtr 0)
      (handlers (Pkg.getDefaultBus (new_handler idle boot).2).2
                (Pkg.getDefaultBus (new_handler idle boot).2).1 T) = 0 ∧
  Pkg.Subscribe T (HPtr 0) (new_handler idle boot).2 =
    Ok (Unsubscribe 0 T (HPtr 0)) w_default ∧
  ∃ w2, Pkg.Unsubscribe T (HPtr 0) w_default = Ok () w2 ∧
        handlers w2 0 T = [] ∧
        Pkg.Unsubscribe T (HPtr 0) w2 = Ok () w2.
Proof.
  assert (Hreach : reachable (new_handler idle boot).2).
  { eapply reach_step; [apply reach_boot|apply step_new_handler]. }
  split; [exact Hreach|]. split; [exact I|]. do 2 (split; [reflexivity|]).
  destruct (package_subscribe_then_unsubscribe (new_handler idle boot).2 T (HPtr 0)
              (Unsubscribe 0 T (HPtr 0)) w_default Hreach I eq_refl eq_refl)
    as (w2 & Hu & Hall & Hu2).
  exists w2. split; [exact Hu|]. split; [exact (Hall 0 T)|exact Hu2].
Defined.
